(** * Go-SDL: the surface handle, its locks and its shadow state

    A shallow embedding of the Go binding [sdl/sdl.go] (and [sdl/gfx.go]):
    the [Surface] handle with its mirrored fields, the global mutex and the
    per-surface read/write mutex, the current video surface, the decoder of
    [SDL_ListModes] results and the surface factories.

    Go code runs in a small state-and-failure monad over a [World]: the Go
    heap of [Surface] values, the memory owned by the C library, the package
    variables [currentVideoSurface] and [GlobalMutex], and a trace of the
    lock operations and C calls performed so far.  The C library itself is
    an oracle [native]: the binding only forwards arguments to it. *)

From Stdlib Require Import ZArith Lia List String.
From stdpp Require Import base option gmap list strings.

Local Open Scope Z_scope.

(** ** Machine integers of the Go and C types in play *)

Definition to_uint16 (z : Z) : Z := z mod 2 ^ 16.
Definition to_uint32 (z : Z) : Z := z mod 2 ^ 32.
Definition to_int16 (z : Z) : Z := (z + 2 ^ 15) mod 2 ^ 16 - 2 ^ 15.
Definition to_int32 (z : Z) : Z := (z + 2 ^ 31) mod 2 ^ 32 - 2 ^ 31.

Definition is_uint16 (z : Z) : Prop := 0 <= z < 2 ^ 16.
Definition is_uint32 (z : Z) : Prop := 0 <= z < 2 ^ 32.
Definition is_int16 (z : Z) : Prop := - 2 ^ 15 <= z < 2 ^ 15.
Definition is_int32 (z : Z) : Prop := - 2 ^ 31 <= z < 2 ^ 31.

(** A C address.  [NULL] is 0. *)
Abbreviation ptr := Z (only parsing).
Definition NULL : ptr := 0.

(** ** The C structures the binding reads *)

Module SDL_Surface.
(** The leading fields of [struct SDL_Surface] (SDL 1.2), the ones
    [reload] reads: [Uint32 flags; SDL_PixelFormat *format; int w, h;
    Uint16 pitch; void *pixels; int offset]. *)
Record t := mk {
  flags : Z;
  format : ptr;
  w : Z;
  h : Z;
  pitch : Z;
  pixels : ptr;
  offset : Z
}.

(** Every field holds a value of its C type. *)
Definition well_typed (c : t) : Prop :=
  is_uint32 (flags c) /\ is_int32 (w c) /\ is_int32 (h c) /\
  is_uint16 (pitch c) /\ is_int32 (offset c).
End SDL_Surface.

Module SDL_Rect.
(** [struct SDL_Rect { Sint16 x, y; Uint16 w, h; }] *)
Record t := mk { x : Z; y : Z; w : Z; h : Z }.

Definition well_typed (r : t) : Prop :=
  is_int16 (x r) /\ is_int16 (y r) /\ is_uint16 (w r) /\ is_uint16 (h r).
End SDL_Rect.

(** Memory owned by the C library, by the type of what lives at an address:
    surface structures, pointer-sized cells (the mode array of
    [SDL_ListModes]) and rectangles.  An address outside a map is not
    readable at that type. *)
Record CMem := mkCMem {
  surfaces : gmap Z SDL_Surface.t;
  cells : gmap Z Z;
  rects : gmap Z SDL_Rect.t
}.

(** ** Go values *)

Module Rect.
(** [type Rect struct { X, Y int16; W, H uint16 }] *)
Record t := mk { X : Z; Y : Z; W : Z; H : Z }.
End Rect.

(** [reflect.Kind] *)
Inductive Kind :=
| Invalid | Bool | Int | Int8 | Int16 | Int32 | Int64
| Uint | Uint8 | Uint16 | Uint32 | Uint64 | Uintptr
| Float32 | Float64 | Complex64 | Complex128
| Array | Chan | Func | Interface | Map | Ptr | Slice
| String_ | Struct | UnsafePointer.

(** [Kind.String] *)
Definition Kind_String (k : Kind) : string :=
  match k with
  | Invalid => "invalid" | Bool => "bool" | Int => "int" | Int8 => "int8"
  | Int16 => "int16" | Int32 => "int32" | Int64 => "int64"
  | Uint => "uint" | Uint8 => "uint8" | Uint16 => "uint16"
  | Uint32 => "uint32" | Uint64 => "uint64" | Uintptr => "uintptr"
  | Float32 => "float32" | Float64 => "float64"
  | Complex64 => "complex64" | Complex128 => "complex128"
  | Array => "array" | Chan => "chan" | Func => "func"
  | Interface => "interface" | Map => "map" | Ptr => "ptr"
  | Slice => "slice" | String_ => "string" | Struct => "struct"
  | UnsafePointer => "unsafe.Pointer"
  end.

(** A non-nil [interface{}] value, as far as [reflect] shows it to the
    binding: its kind and, for the kinds that have one, its data address
    ([Value.Pointer]). *)
Record GoValue := mkGoValue { kind : Kind; Pointer : ptr }.

(** [reflect.ValueOf(v).Kind()]; the nil interface has kind [Invalid]. *)
Definition Kind_of (v : option GoValue) : Kind :=
  match v with
  | None => Invalid
  | Some g => kind g
  end.

(** A Go slice is nil or has a backing array; both may have length 0. *)
Inductive slice (A : Type) :=
| nil_slice
| make_slice (elems : list A).
Arguments nil_slice {A}.
Arguments make_slice {A} elems.

Definition len {A} (s : slice A) : nat :=
  match s with
  | nil_slice => 0%nat
  | make_slice l => length l
  end.

(** [sync.RWMutex]: held by one writer, or by a number of readers. *)
Record RWMutex := mkRWMutex { writer : bool; readers : nat }.

(** [type Surface struct] *)
Record Surface := mkSurface {
  cSurface : ptr;
  mutex : RWMutex;
  Flags : Z;
  Format : ptr;
  W : Z;
  H : Z;
  Pitch : Z;
  Pixels : ptr;
  Offset : Z;
  gcPixels : option GoValue
}.

(** [var surface Surface]: the zero value. *)
Definition zero_Surface : Surface :=
  mkSurface NULL (mkRWMutex false 0) 0 NULL 0 0 0 NULL 0 None.

(** A [*Surface]: nil, or the location of a [Surface] on the Go heap. *)
Abbreviation handle := (option nat) (only parsing).

(** ** Calls into the C library, and observable events *)

Inductive native_call :=
| SDL_Quit
| SDL_SetVideoMode (w h bpp flags : Z)
| SDL_ListModes (format : ptr) (flags : Z)
| SDL_FreeSurface (s : ptr)
| SDL_LockSurface (s : ptr)
| SDL_UnlockSurface (s : ptr)
| SDL_UpperBlit (src srcrect dst dstrect : ptr)
| SDL_FillRect (dst dstrect : ptr) (color : Z)
| IMG_Load (file : string)
| SDL_CreateRGBSurface (flags width height bpp Rmask Gmask Bmask Amask : Z)
| SDL_CreateRGBSurfaceFrom (pixels : ptr)
    (width height bpp pitch Rmask Gmask Bmask Amask : Z)
| SDL_DisplayFormat (s : ptr)
| SDL_DisplayFormatAlpha (s : ptr)
| zoomSurface (s : ptr) (zoomX zoomY : Z) (smooth : Z).

Inductive event :=
| GlobalLock
| GlobalUnlock
| Lock_ (a : nat)       (* [mutex.Lock] of the surface at [a] *)
| Unlock_ (a : nat)
| RLock (a : nat)
| RUnlock (a : nat)
| Call (c : native_call).

(** ** The world and the monad *)

Record World := mkWorld {
  heap : gmap nat Surface;
  cmem : CMem;
  currentVideoSurface : option nat;
  GlobalMutex : bool;
  trace : list event
}.

Inductive outcome (A : Type) :=
| Ok (a : A) (w : World)            (* the call returns [a] *)
| Panic (msg : string) (w : World)  (* the goroutine panics *)
| Blocked (w : World)               (* the goroutine waits for a lock *)
| OutOfFuel (w : World).            (* a loop outran the steps granted *)
Arguments Ok {A} a w.
Arguments Panic {A} msg w.
Arguments Blocked {A} w.
Arguments OutOfFuel {A} w.

Definition M (A : Type) : Type := World -> outcome A.

#[export] Instance M_ret : MRet M := fun A a w => Ok a w.
#[export] Instance M_bind : MBind M := fun A B f m w =>
  match m w with
  | Ok a w' => f a w'
  | Panic msg w' => Panic msg w'
  | Blocked w' => Blocked w'
  | OutOfFuel w' => OutOfFuel w'
  end.

Definition panic {A} (msg : string) : M A := fun w => Panic msg w.
Definition block {A} : M A := fun w => Blocked w.
Definition out_of_fuel {A} : M A := fun w => OutOfFuel w.
Definition get : M World := fun w => Ok w w.

Definition nil_dereference : string :=
  "runtime error: invalid memory address or nil pointer dereference".

Definition log (e : event) : M unit := fun w =>
  Ok tt (mkWorld (heap w) (cmem w) (currentVideoSurface w) (GlobalMutex w)
           (trace w ++ [e])).

Definition set_GlobalMutex (b : bool) : M unit := fun w =>
  Ok tt (mkWorld (heap w) (cmem w) (currentVideoSurface w) b (trace w)).

Definition set_currentVideoSurface (s : option nat) : M unit := fun w =>
  Ok tt (mkWorld (heap w) (cmem w) s (GlobalMutex w) (trace w)).

(** Reading and writing through a [*Surface].  A nil handle panics; Go has
    no dangling pointers, so a handle outside the heap is treated alike. *)
Definition load (s : option nat) : M Surface := fun w =>
  match s with
  | None => Panic nil_dereference w
  | Some a =>
      match heap w !! a with
      | Some v => Ok v w
      | None => Panic nil_dereference w
      end
  end.

Definition store (s : option nat) (v : Surface) : M unit := fun w =>
  match s with
  | None => Panic nil_dereference w
  | Some a =>
      match heap w !! a with
      | Some _ =>
          Ok tt (mkWorld (<[a := v]> (heap w)) (cmem w)
                   (currentVideoSurface w) (GlobalMutex w) (trace w))
      | None => Panic nil_dereference w
      end
  end.

(** Escape of a local [Surface] to the heap: a location not in use. *)
Definition new (v : Surface) : M (option nat) := fun w =>
  let a := fresh (dom (heap w)) in
  Ok (Some a) (mkWorld (<[a := v]> (heap w)) (cmem w)
                 (currentVideoSurface w) (GlobalMutex w) (trace w)).

Definition set_mutex (m : RWMutex) (v : Surface) : Surface :=
  mkSurface (cSurface v) m (Flags v) (Format v) (W v) (H v) (Pitch v)
    (Pixels v) (Offset v) (gcPixels v).

(** ** [sync.Mutex] and [sync.RWMutex] *)

Definition GlobalMutex_Lock : M unit :=
  w ← get;
  if GlobalMutex w then block
  else set_GlobalMutex true;; log GlobalLock.

Definition GlobalMutex_Unlock : M unit :=
  w ← get;
  if GlobalMutex w then set_GlobalMutex false;; log GlobalUnlock
  else panic "sync: unlock of unlocked mutex".

Definition mutex_Lock (s : option nat) : M unit :=
  v ← load s;
  if writer (mutex v) || negb (Nat.eqb (readers (mutex v)) 0) then block
  else store s (set_mutex (mkRWMutex true 0) v);;
       from_option (fun a => log (Lock_ a)) (mret tt) s.

Definition mutex_Unlock (s : option nat) : M unit :=
  v ← load s;
  if writer (mutex v)
  then store s (set_mutex (mkRWMutex false (readers (mutex v))) v);;
       from_option (fun a => log (Unlock_ a)) (mret tt) s
  else panic "sync: Unlock of unlocked RWMutex".

Definition mutex_RLock (s : option nat) : M unit :=
  v ← load s;
  if writer (mutex v) then block
  else store s (set_mutex (mkRWMutex false (S (readers (mutex v)))) v);;
       from_option (fun a => log (RLock a)) (mret tt) s.

Definition mutex_RUnlock (s : option nat) : M unit :=
  v ← load s;
  match readers (mutex v) with
  | O => panic "sync: RUnlock of unlocked RWMutex"
  | S n =>
      store s (set_mutex (mkRWMutex (writer (mutex v)) n) v);;
      from_option (fun a => log (RUnlock a)) (mret tt) s
  end.

(** ** The binding *)

Section Binding.

(** The C library: the value a call returns (a status, or an address;
    ignored for [void] functions) and the C memory it leaves.  Calls are
    taken to return, as the binding itself assumes. *)
Variable native : native_call -> CMem -> Z * CMem.

(** [unsafe.Sizeof] of a pointer; Go's [int] and [uintptr] have that many
    bytes. *)
Variable ptr_size : Z.

Definition word_bits : Z := 8 * ptr_size.
Definition to_uintptr (z : Z) : Z := z mod 2 ^ word_bits.
Definition to_int (z : Z) : Z :=
  (z + 2 ^ (word_bits - 1)) mod 2 ^ word_bits - 2 ^ (word_bits - 1).

Definition call (c : native_call) : M Z := fun w =>
  let '(r, m) := native c (cmem w) in
  Ok r (mkWorld (heap w) m (currentVideoSurface w) (GlobalMutex w)
          (trace w ++ [Call c])).

(** [func (s *Surface) reload()] *)
Definition reload (s : handle) : M unit :=
  v ← load s;
  w ← get;
  if cSurface v =? NULL then panic nil_dereference
  else
    match surfaces (cmem w) !! cSurface v with
    | None => panic "unexpected fault address"
    | Some c =>
        store s (mkSurface (cSurface v) (mutex v)
                   (to_uint32 (SDL_Surface.flags c))
                   (SDL_Surface.format c)
                   (to_int32 (SDL_Surface.w c))
                   (to_int32 (SDL_Surface.h c))
                   (to_uint16 (SDL_Surface.pitch c))
                   (SDL_Surface.pixels c)
                   (to_int32 (SDL_Surface.offset c))
                   (gcPixels v))
    end.

(** [func (s *Surface) SetCSurface(cSurface unsafe.Pointer)] *)
Definition SetCSurface (s : handle) (c : ptr) : M unit :=
  v ← load s;
  store s (mkSurface c (mutex v) (Flags v) (Format v) (W v) (H v) (Pitch v)
             (Pixels v) (Offset v) (gcPixels v));;
  reload s.

(** [func wrap(cSurface *C.SDL_Surface) *Surface] *)
Definition wrap (c : ptr) : M handle :=
  if c =? NULL then mret None
  else
    s ← new zero_Surface;
    SetCSurface s c;;
    mret s.

(** [func (s *Surface) destroy()] *)
Definition destroy (s : handle) : M unit :=
  v ← load s;
  store s (mkSurface NULL (mutex v) (Flags v) NULL (W v) (H v) (Pitch v)
             NULL (Offset v) None).

(** [func Quit()] *)
Definition Quit : M unit :=
  GlobalMutex_Lock;;
  w ← get;
  match currentVideoSurface w with
  | Some _ => destroy (currentVideoSurface w);; set_currentVideoSurface None
  | None => mret tt
  end;;
  call SDL_Quit;;
  GlobalMutex_Unlock.

(** [func SetVideoMode(w int, h int, bpp int, flags uint32) *Surface] *)
Definition SetVideoMode (w h bpp flags : Z) : M handle :=
  GlobalMutex_Lock;;
  screen ← call (SDL_SetVideoMode (to_int32 w) (to_int32 h) (to_int32 bpp)
                   (to_uint32 flags));
  s ← wrap screen;
  set_currentVideoSurface s;;
  GlobalMutex_Unlock;;
  st ← get;
  mret (currentVideoSurface st).

(** [func GetVideoSurface() *Surface] *)
Definition GetVideoSurface : M handle :=
  GlobalMutex_Lock;;
  st ← get;
  let surface := currentVideoSurface st in
  GlobalMutex_Unlock;;
  mret surface.

(** Reading C memory from Go through a raw address. *)
Definition read_cell (a : ptr) : M Z := fun w =>
  match cells (cmem w) !! a with
  | Some p => Ok p w
  | None => Panic "unexpected fault address" w
  end.

Definition read_rect (a : ptr) : M SDL_Rect.t := fun w =>
  if a =? NULL then Panic nil_dereference w
  else
    match rects (cmem w) !! a with
    | Some r => Ok r w
    | None => Panic "unexpected fault address" w
    end.

(** The address [uintptr(modes) + uintptr(i * int(unsafe.Sizeof(ptr)))]. *)
Definition entry_address (modes : ptr) (i : Z) : ptr :=
  to_uintptr (to_uintptr modes + to_uintptr (to_int (i * ptr_size))).

(** The counting loop of [ListModes]:
    [for ptr != nil { count++; ptr = *(modes + count*size) }]. *)
Fixpoint count_modes (fuel : nat) (modes : ptr) (count : Z) (p : ptr)
  : M Z :=
  if p =? NULL then mret count
  else
    match fuel with
    | O => out_of_fuel
    | S fuel' =>
        let count' := to_int (count + 1) in
        p' ← read_cell (entry_address modes count');
        count_modes fuel' modes count' p'
    end.

(** The copying loop of [ListModes], [n] entries from index [i] on. *)
Fixpoint copy_modes (n : nat) (modes : ptr) (i : Z) : M (list Rect.t) :=
  match n with
  | O => mret []
  | S n' =>
      r ← read_cell (entry_address modes i);
      c ← read_rect r;
      rest ← copy_modes n' modes (to_int (i + 1));
      mret (Rect.mk (to_int16 (SDL_Rect.x c)) (to_int16 (SDL_Rect.y c))
                    (to_uint16 (SDL_Rect.w c)) (to_uint16 (SDL_Rect.h c))
            :: rest)
  end.

(** [func ListModes(format *PixelFormat, flags uint32) []Rect] *)
Definition ListModes (fuel : nat) (format : ptr) (flags : Z)
  : M (slice Rect.t) :=
  modes ← call (SDL_ListModes format (to_uint32 flags));
  if modes =? NULL then mret (make_slice [])
  else if to_uintptr (to_uintptr modes + 1) =? 0 then mret nil_slice
  else
    p ← read_cell modes;
    count ← count_modes fuel modes 0 p;
    if count <? 0 then panic "runtime error: makeslice: len out of range"
    else
      ret ← copy_modes (Z.to_nat count) modes 0;
      mret (make_slice ret).

(** [func (screen *Surface) Free()] *)
Definition Free (screen : handle) : M unit :=
  GlobalMutex_Lock;;
  mutex_Lock screen;;
  v ← load screen;
  call (SDL_FreeSurface (cSurface v));;
  destroy screen;;
  w ← get;
  (if decide (screen = currentVideoSurface w)
   then set_currentVideoSurface None
   else mret tt);;
  mutex_Unlock screen;;
  GlobalMutex_Unlock.

(** [func (screen *Surface) Lock() int] *)
Definition Lock (screen : handle) : M Z :=
  mutex_Lock screen;;
  v ← load screen;
  status ← call (SDL_LockSurface (cSurface v));
  mutex_Unlock screen;;
  mret status.

(** [func (screen *Surface) Unlock()] *)
Definition Unlock (screen : handle) : M unit :=
  mutex_Lock screen;;
  v ← load screen;
  call (SDL_UnlockSurface (cSurface v));;
  mutex_Unlock screen.

(** [func (dst *Surface) Blit(dstrect *Rect, src *Surface, srcrect *Rect) int] *)
Definition Blit (dst : handle) (dstrect : ptr) (src : handle) (srcrect : ptr)
  : M Z :=
  GlobalMutex_Lock;;
  w ← get;
  global ←
    (if bool_decide (src ≠ currentVideoSurface w)
        && bool_decide (dst ≠ currentVideoSurface w)
     then GlobalMutex_Unlock;; mret false
     else mret true);
  mutex_RLock src;;
  mutex_Lock dst;;
  vs ← load src;
  vd ← load dst;
  ret ← call (SDL_UpperBlit (cSurface vs) srcrect (cSurface vd) dstrect);
  mutex_Unlock dst;;
  mutex_RUnlock src;;
  (if global : bool then GlobalMutex_Unlock else mret tt);;
  mret ret.

(** [func BlitSurface(src *Surface, srcrect *Rect, dst *Surface, dstrect *Rect) int] *)
Definition BlitSurface (src : handle) (srcrect : ptr) (dst : handle)
  (dstrect : ptr) : M Z :=
  Blit dst dstrect src srcrect.

(** [func (dst *Surface) FillRect(dstrect *Rect, color uint32) int] *)
Definition FillRect (dst : handle) (dstrect : ptr) (color : Z) : M Z :=
  mutex_Lock dst;;
  v ← load dst;
  ret ← call (SDL_FillRect (cSurface v) dstrect (to_uint32 color));
  mutex_Unlock dst;;
  mret ret.

(** [func Load(file string) *Surface] *)
Definition Load (file : string) : M handle :=
  GlobalMutex_Lock;;
  screen ← call (IMG_Load file);
  GlobalMutex_Unlock;;
  wrap screen.

(** [func CreateRGBSurface(flags uint32, width, height, bpp int, Rmask, Gmask, Bmask, Amask uint32) *Surface] *)
Definition CreateRGBSurface
  (flags width height bpp Rmask Gmask Bmask Amask : Z) : M handle :=
  GlobalMutex_Lock;;
  p ← call (SDL_CreateRGBSurface (to_uint32 flags) (to_int32 width)
              (to_int32 height) (to_int32 bpp) (to_uint32 Rmask)
              (to_uint32 Gmask) (to_uint32 Bmask) (to_uint32 Amask));
  GlobalMutex_Unlock;;
  wrap p.

(** The [switch] on [reflect.ValueOf(pixels).Kind()] that opens
    [CreateRGBSurfaceFrom]. *)
Definition pixels_pointer (pixels : option GoValue) : M ptr :=
  match Kind_of pixels with
  | Ptr | UnsafePointer | Slice => mret (from_option Pointer NULL pixels)
  | k => panic ("Don't know how to handle type: " +:+ Kind_String k)
  end.

(** [func CreateRGBSurfaceFrom(pixels interface{}, width, height, bpp, pitch int, Rmask, Gmask, Bmask, Amask uint32) *Surface] *)
Definition CreateRGBSurfaceFrom (pixels : option GoValue)
  (width height bpp pitch Rmask Gmask Bmask Amask : Z) : M handle :=
  p0 ← pixels_pointer pixels;
  GlobalMutex_Lock;;
  p ← call (SDL_CreateRGBSurfaceFrom p0 (to_int32 width) (to_int32 height)
              (to_int32 bpp) (to_int32 pitch) (to_uint32 Rmask)
              (to_uint32 Gmask) (to_uint32 Bmask) (to_uint32 Amask));
  GlobalMutex_Unlock;;
  s ← wrap p;
  v ← load s;
  store s (mkSurface (cSurface v) (mutex v) (Flags v) (Format v) (W v) (H v)
             (Pitch v) (Pixels v) (Offset v) pixels);;
  mret s.

(** [func (s *Surface) DisplayFormat() *Surface] *)
Definition DisplayFormat (s : handle) : M handle :=
  mutex_RLock s;;
  v ← load s;
  p ← call (SDL_DisplayFormat (cSurface v));
  mutex_RUnlock s;;
  wrap p.

(** [func (s *Surface) DisplayFormatAlpha() *Surface] *)
Definition DisplayFormatAlpha (s : handle) : M handle :=
  mutex_RLock s;;
  v ← load s;
  p ← call (SDL_DisplayFormatAlpha (cSurface v));
  mutex_RUnlock s;;
  wrap p.

(** [func (s *Surface) Zoom(zoomX, zoomY float64, smooth bool) *Surface];
    the two [float64] pass through as their bit patterns. *)
Definition Zoom (s : handle) (zoomX zoomY : Z) (smooth : bool) : M handle :=
  let cSmooth := if smooth then 1 else 0 in
  v ← load s;
  p ← call (zoomSurface (cSurface v) zoomX zoomY cSmooth);
  wrap p.

End Binding.


(** ** Observing an outcome *)

Definition world_of {A} (o : outcome A) : World :=
  match o with
  | Ok _ w | Panic _ w | Blocked w | OutOfFuel w => w
  end.

(** The C calls among the events of a trace. *)
Definition calls (tr : list event) : list native_call :=
  omap (fun e => match e with Call c => Some c | _ => None end) tr.

(** The value [(SDL_Rect ** )-1] by which [SDL_ListModes] says that any
    dimension will do. *)
Definition wildcard (ptr_size : Z) : ptr := 2 ^ word_bits ptr_size - 1.

(** What [SDL_ListModes] otherwise points to: from [modes] on, one cell per
    entry holding the non-null address of that entry's rectangle, then a
    cell holding NULL; the whole array lies inside the address space. *)
Definition mode_array (ptr_size : Z) (m : CMem) (modes : ptr)
  (entries : list (Z * SDL_Rect.t)) : Prop :=
  0 < modes /\
  modes + (Z.of_nat (length entries) + 1) * ptr_size
    <= 2 ^ word_bits ptr_size /\
  (forall (i : nat) (p : Z) (r : SDL_Rect.t),
      entries !! i = Some (p, r) ->
      p <> NULL /\
      cells m !! (modes + Z.of_nat i * ptr_size) = Some p /\
      rects m !! p = Some r /\
      SDL_Rect.well_typed r) /\
  cells m !! (modes + Z.of_nat (length entries) * ptr_size) = Some NULL.

(** The Go [Rect] with the fields of a C rectangle. *)
Definition Rect_of (r : SDL_Rect.t) : Rect.t :=
  Rect.mk (SDL_Rect.x r) (SDL_Rect.y r) (SDL_Rect.w r) (SDL_Rect.h r).

(** The surface [wrap] builds over the C structure [cs] at [c]. *)
Definition wrapped (c : ptr) (cs : SDL_Surface.t) : Surface :=
  mkSurface c (mkRWMutex false 0)
    (to_uint32 (SDL_Surface.flags cs)) (SDL_Surface.format cs)
    (to_int32 (SDL_Surface.w cs)) (to_int32 (SDL_Surface.h cs))
    (to_uint16 (SDL_Surface.pitch cs)) (SDL_Surface.pixels cs)
    (to_int32 (SDL_Surface.offset cs)) None.

(** The surface [destroy] leaves of [v]. *)
Definition destroyed (v : Surface) : Surface :=
  mkSurface NULL (mutex v) (Flags v) NULL (W v) (H v) (Pitch v) NULL
    (Offset v) None.

(** The caller shapes the specification lists for [CreateRGBSurfaceFrom]: a
    contiguous buffer (a pointer or an unsafe pointer), an array or sequence
    value, and an address with a length (in Go, a slice). *)
Definition spec_accepted_shape (k : Kind) : bool :=
  match k with
  | Ptr | UnsafePointer | Array | Slice => true
  | _ => false
  end.

(** The order of events the specification prescribes for a blit from the
    surface at [s] to the surface at [d]. *)
Definition spec_Blit_events (global : bool) (s d : nat) (c : native_call)
  : list event :=
  if global
  then [GlobalLock; Lock_ d; RLock s; Call c; RUnlock s; Unlock_ d;
        GlobalUnlock]
  else [Lock_ d; RLock s; Call c; RUnlock s; Unlock_ d].

#[export] Instance native_call_eq_dec : EqDecision native_call.
Proof. solve_decision. Defined.

#[export] Instance event_eq_dec : EqDecision event.
Proof. solve_decision. Defined.

(** [e1] occurs in [tr], and [e2] occurs later. *)
Fixpoint precedes (e1 e2 : event) (tr : list event) : bool :=
  match tr with
  | [] => false
  | e :: tr' =>
      (bool_decide (e = e1) && bool_decide (e2 ∈ tr')) || precedes e1 e2 tr'
  end.

(** ** A stub C library and small worlds to run the binding on *)

Definition screen_c : SDL_Surface.t := SDL_Surface.mk 1 64 640 480 2560 8192 0.
Definition sprite_c : SDL_Surface.t := SDL_Surface.mk 0 64 32 32 128 16384 0.

(** [SDL_SetVideoMode] hands out the screen at 4096; the surface creators
    hand out a surface at 12288, or NULL for a depth SDL has no format for;
    [SDL_ListModes] answers with the array at 1000 for flags 0, NULL for
    flags 1 and -1 otherwise; blits and fills report -1 on a NULL
    surface. *)
Definition stub (c : native_call) (m : CMem) : Z * CMem :=
  match c with
  | SDL_SetVideoMode w h bpp flags =>
      (4096,
       mkCMem (<[4096 := SDL_Surface.mk flags 64 w h (w * 4) 8192 0]>
                 (surfaces m)) (cells m) (rects m))
  | SDL_CreateRGBSurfaceFrom pixels width height bpp pitch _ _ _ _ =>
      if bool_decide (bpp = 8 \/ bpp = 16 \/ bpp = 24 \/ bpp = 32)
      then (12288,
            mkCMem (<[12288 := SDL_Surface.mk 0 64 width height pitch pixels 0]>
                      (surfaces m)) (cells m) (rects m))
      else (NULL, m)
  | SDL_ListModes _ flags =>
      (if flags =? 0 then 1000 else if flags =? 1 then NULL
       else 2 ^ 64 - 1, m)
  | SDL_UpperBlit src _ dst _ =>
      if (src =? NULL) || (dst =? NULL) then (-1, m) else (0, m)
  | SDL_FillRect dst _ _ => if dst =? NULL then (-1, m) else (0, m)
  | _ => (0, m)
  end.

Definition stub_mem : CMem :=
  mkCMem
    (<[4096 := screen_c]> (<[12288 := sprite_c]> ∅))
    (<[1000 := 2000]> (<[1008 := 2008]> (<[1016 := NULL]> ∅)))
    (<[2000 := SDL_Rect.mk 0 0 640 480]>
       (<[2008 := SDL_Rect.mk 0 0 320 240]> ∅)).

(** The two modes of the array at 1000 in [stub_mem]. *)
Definition stub_modes : list (Z * SDL_Rect.t) :=
  [(2000, SDL_Rect.mk 0 0 640 480); (2008, SDL_Rect.mk 0 0 320 240)].

Definition unlocked : RWMutex := mkRWMutex false 0.

Definition screen : Surface :=
  mkSurface 4096 unlocked 1 64 640 480 2560 8192 0 None.
Definition sprite : Surface :=
  mkSurface 12288 unlocked 0 64 32 32 128 16384 0
    (Some (mkGoValue Slice 16384)).

(** Nothing allocated yet. *)
Definition empty_world : World := mkWorld ∅ stub_mem None false [].

(** Two surfaces, at locations 0 and 1; no video surface is set. *)
Definition offscreen_world : World :=
  mkWorld (<[0%nat := screen]> (<[1%nat := sprite]> ∅)) stub_mem None false [].

(** The same two surfaces; the one at 0 is the video surface. *)
Definition onscreen_world : World :=
  mkWorld (<[0%nat := screen]> (<[1%nat := sprite]> ∅)) stub_mem
    (Some 0%nat) false [].

(** The surface at 0 has been destroyed. *)
Definition destroyed_world : World :=
  mkWorld (<[0%nat := destroyed screen]> (<[1%nat := sprite]> ∅)) stub_mem
    None false [].

(** A handle whose shadow fields are out of date. *)
Definition stale : Surface :=
  mkSurface 4096 unlocked 0 NULL 0 0 0 NULL 0 None.
Definition stale_world : World :=
  mkWorld (<[0%nat := stale]> ∅) stub_mem None false [].

(** ** Observing locks *)

(** The events of a trace that lock or unlock the global mutex. *)
Definition global_events (tr : list event) : list event :=
  omap (fun e => match e with
                 | GlobalLock | GlobalUnlock => Some e
                 | _ => None
                 end) tr.

(** The events of a trace that lock or unlock any mutex. *)
Definition lock_events (tr : list event) : list event :=
  omap (fun e => match e with
                 | Call _ => None
                 | _ => Some e
                 end) tr.

(** Every mutex of [w], the global one and that of each surface, is in
    [w'] in the state it has in [w]. *)
Definition locks_as_before (w w' : World) : Prop :=
  GlobalMutex w' = GlobalMutex w /\
  forall (a : nat) (v : Surface),
    heap w !! a = Some v ->
    exists v', heap w' !! a = Some v' /\ mutex v' = mutex v.

(** The current video surface, if there is one, is a handle on the heap
    whose C pointer is not NULL. *)
Definition video_surface_live (w : World) : Prop :=
  forall a : nat,
    currentVideoSurface w = Some a ->
    exists v, heap w !! a = Some v /\ cSurface v <> NULL.

(** Neither the global mutex nor the current video surface differs between
    [w] and [w'], and the trace of [w'] has the global lock events of [w],
    no more. *)
Definition global_untouched (w w' : World) : Prop :=
  GlobalMutex w' = GlobalMutex w /\
  currentVideoSurface w' = currentVideoSurface w /\
  global_events (trace w') = global_events (trace w).

(** However [m] ends, the world it leaves is related by [R] to the world it
    started in. *)
Definition preserves {A} (R : World -> World -> Prop) (m : M A) : Prop :=
  forall w, R w (world_of (m w)).

(** What a factory may do to the heap: nothing when it returns nil;
    otherwise add, at a location not in use, the surface [wrap] builds over
    a live C surface.  The current video surface stays as it is. *)
Definition adds_at_most_a_new_handle (w w' : World) (s : option nat)
  : Prop :=
  currentVideoSurface w' = currentVideoSurface w /\
  match s with
  | None => heap w' = heap w
  | Some a =>
      heap w !! a = None /\
      exists c cs,
        c <> NULL /\ surfaces (cmem w') !! c = Some cs /\
        heap w' = <[a := wrapped c cs]> (heap w)
  end.

(** A C library that loads and converts: [IMG_Load] and
    [SDL_DisplayFormat] answer with the surface at 12288; otherwise as
    [stub]. *)
Definition loader_stub (c : native_call) (m : CMem) : Z * CMem :=
  match c with
  | IMG_Load _ | SDL_DisplayFormat _ => (12288, m)
  | _ => stub c m
  end.

(** ** Pixel access *)

(** [var ExpandByte [9][]uint32]: for each loss of 0 to 8 bits, the 8-bit
    value of each channel value that remains. *)
Definition ExpandByte : list (list Z) :=
  [
    [0; 1; 2; 3; 4; 5; 6; 7; 8; 9; 10; 11; 12; 13; 14; 15; 16; 17; 18; 19;
     20; 21; 22; 23; 24; 25; 26; 27; 28; 29; 30; 31; 32; 33; 34; 35; 36; 37;
     38; 39; 40; 41; 42; 43; 44; 45; 46; 47; 48; 49; 50; 51; 52; 53; 54; 55;
     56; 57; 58; 59; 60; 61; 62; 63; 64; 65; 66; 67; 68; 69; 70; 71; 72; 73;
     74; 75; 76; 77; 78; 79; 80; 81; 82; 83; 84; 85; 86; 87; 88; 89; 90; 91;
     92; 93; 94; 95; 96; 97; 98; 99; 100; 101; 102; 103; 104; 105; 106; 107;
     108; 109; 110; 111; 112; 113; 114; 115; 116; 117; 118; 119; 120; 121;
     122; 123; 124; 125; 126; 127; 128; 129; 130; 131; 132; 133; 134; 135;
     136; 137; 138; 139; 140; 141; 142; 143; 144; 145; 146; 147; 148; 149;
     150; 151; 152; 153; 154; 155; 156; 157; 158; 159; 160; 161; 162; 163;
     164; 165; 166; 167; 168; 169; 170; 171; 172; 173; 174; 175; 176; 177;
     178; 179; 180; 181; 182; 183; 184; 185; 186; 187; 188; 189; 190; 191;
     192; 193; 194; 195; 196; 197; 198; 199; 200; 201; 202; 203; 204; 205;
     206; 207; 208; 209; 210; 211; 212; 213; 214; 215; 216; 217; 218; 219;
     220; 221; 222; 223; 224; 225; 226; 227; 228; 229; 230; 231; 232; 233;
     234; 235; 236; 237; 238; 239; 240; 241; 242; 243; 244; 245; 246; 247;
     248; 249; 250; 251; 252; 253; 254; 255];
    [0; 2; 4; 6; 8; 10; 12; 14; 16; 18; 20; 22; 24; 26; 28; 30; 32; 34; 36;
     38; 40; 42; 44; 46; 48; 50; 52; 54; 56; 58; 60; 62; 64; 66; 68; 70; 72;
     74; 76; 78; 80; 82; 84; 86; 88; 90; 92; 94; 96; 98; 100; 102; 104; 106;
     108; 110; 112; 114; 116; 118; 120; 122; 124; 126; 128; 130; 132; 134;
     136; 138; 140; 142; 144; 146; 148; 150; 152; 154; 156; 158; 160; 162;
     164; 166; 168; 170; 172; 174; 176; 178; 180; 182; 184; 186; 188; 190;
     192; 194; 196; 198; 200; 202; 204; 206; 208; 210; 212; 214; 216; 218;
     220; 222; 224; 226; 228; 230; 232; 234; 236; 238; 240; 242; 244; 246;
     248; 250; 252; 255];
    [0; 4; 8; 12; 16; 20; 24; 28; 32; 36; 40; 44; 48; 52; 56; 60; 64; 68;
     72; 76; 80; 85; 89; 93; 97; 101; 105; 109; 113; 117; 121; 125; 129;
     133; 137; 141; 145; 149; 153; 157; 161; 165; 170; 174; 178; 182; 186;
     190; 194; 198; 202; 206; 210; 214; 218; 222; 226; 230; 234; 238; 242;
     246; 250; 255];
    [0; 8; 16; 24; 32; 41; 49; 57; 65; 74; 82; 90; 98; 106; 115; 123; 131;
     139; 148; 156; 164; 172; 180; 189; 197; 205; 213; 222; 230; 238; 246;
     255];
    [0; 17; 34; 51; 68; 85; 102; 119; 136; 153; 170; 187; 204; 221; 238;
     255];
    [0; 36; 72; 109; 145; 182; 218; 255];
    [0; 85; 170; 255];
    [0; 255];
    [255]
  ].

(** [ExpandByte[loss][v]]; an index out of range panics in Go. *)
Definition ExpandByte_at (loss v : nat) : option Z :=
  row ← ExpandByte !! loss; row !! v.

(** What the table holds at [loss], [v]: a value of 8 bits, the channel
    value scaled from [0 .. 2^(8-loss) - 1] to [0 .. 255], whose top bits
    are the channel value again. *)
Definition ExpandByte_entry_ok (loss v : nat) : bool :=
  match ExpandByte_at loss v with
  | None => false
  | Some x =>
      (0 <=? x) && (x <=? 255)
      && (if Nat.eqb loss 8 then x =? 255
          else x =? Z.of_nat v * 255 / (2 ^ (8 - Z.of_nat loss) - 1))
      && (Z.shiftr x (Z.of_nat loss) =? Z.of_nat v)
  end.

(** [reflect.SliceHeader] *)
Record SliceHeader := mkSliceHeader { Data : Z; Len : Z; Cap : Z }.

(** [func (s *Surface) Pixel32() []uint32], as the slice header it builds.
    Go's [/] on [int] truncates toward zero. *)
Definition Pixel32 (ptr_size : Z) (s : handle) : M SliceHeader :=
  v ← load s;
  let length :=
    to_int ptr_size (to_int ptr_size (Pitch v) * to_int ptr_size (H v)) ÷ 4 in
  mret (mkSliceHeader (to_uintptr ptr_size (Pixels v)) length length).

(** ** Functions whose C calls are not among [native_call] *)

(** A C function outside [native_call]: it acts on the C memory and is not
    recorded in the trace. *)
Definition foreign {A} (f : CMem -> A * CMem) : M A := fun w =>
  let '(r, m) := f (cmem w) in
  Ok r (mkWorld (heap w) m (currentVideoSurface w) (GlobalMutex w) (trace w)).



Section More.

(** [runtime.GOOS], and the constants [INIT_VIDEO] and [VIDEORESIZE] of the
    package. *)
Variable GOOS : string.
Variable INIT_VIDEO : Z.
Variable VIDEORESIZE : Z.

(** [type Event struct], declared with the other structures of the package,
    and its field [Type]. *)
Variable Event : Type.
Variable Event_Type : Event -> Z.

(** The C functions.  [SDL_Init] and [SDL_InitSubSystem] read the
    environment; [SDL_PollEvent] fills the event it is pointed to;
    [SDL_UpdateRects] reads the rectangles it is pointed to. *)
Variable SDL_Init : Z -> gmap string string -> CMem -> Z * CMem.
Variable SDL_InitSubSystem : Z -> gmap string string -> CMem -> Z * CMem.
Variable SDL_PollEvent : Event -> CMem -> (Z * Event) * CMem.
Variable SDL_Flip : Z -> CMem -> Z * CMem.
Variable SDL_UpdateRect : Z -> Z -> Z -> Z -> Z -> CMem -> unit * CMem.
Variable SDL_UpdateRects : Z -> Z -> list Rect.t -> CMem -> unit * CMem.



(** [func (event *Event) poll() bool], on a non-nil [event]; the event as
    the C function leaves it is returned with the result. *)
Definition poll (event : Event) : M (bool * Event) :=
  GlobalMutex_Lock;;
  r ← foreign (SDL_PollEvent event);
  let ret := fst r in
  let event := snd r in
  (if bool_decide (ret <> 0)
   then
     w ← get;
     if bool_decide (Event_Type event = VIDEORESIZE)
        && bool_decide (currentVideoSurface w <> None)
     then reload (currentVideoSurface w)
     else mret tt
   else mret tt);;
  GlobalMutex_Unlock;;
  mret (bool_decide (ret <> 0), event).

(** [func (screen *Surface) Flip() int] *)
Definition Flip (screen : handle) : M Z :=
  GlobalMutex_Lock;;
  mutex_Lock screen;;
  v ← load screen;
  status ← foreign (SDL_Flip (cSurface v));
  mutex_Unlock screen;;
  GlobalMutex_Unlock;;
  mret status.

(** [func (screen *Surface) UpdateRect(x int32, y int32, w uint32, h uint32)] *)
Definition UpdateRect (screen : handle) (x y w h : Z) : M unit :=
  GlobalMutex_Lock;;
  mutex_Lock screen;;
  v ← load screen;
  foreign (SDL_UpdateRect (cSurface v) (to_int32 x) (to_int32 y)
             (to_uint32 w) (to_uint32 h));;
  mutex_Unlock screen;;
  GlobalMutex_Unlock.

(** [func (screen *Surface) UpdateRects(rects []Rect)] *)
Definition UpdateRects (screen : handle) (rects : slice Rect.t) : M unit :=
  if (0 <? len rects)%nat
  then
    GlobalMutex_Lock;;
    mutex_Lock screen;;
    v ← load screen;
    foreign (SDL_UpdateRects (cSurface v) (to_int32 (Z.of_nat (len rects)))
               (match rects with
                | nil_slice => []
                | make_slice elems => elems
                end));;
    mutex_Unlock screen;;
    GlobalMutex_Unlock
  else mret tt.

End More.



(** An event queue for [SDL_PollEvent]: events are their type tags, the
    queue is the event pointed to; a resize (tag 16) is pending, and the C
    library has resized the screen at 4096 to 800 by 600. *)
Definition resize_PollEvent (event : Z) (m : CMem) : (Z * Z) * CMem :=
  ((1, 16),
   mkCMem (<[4096 := SDL_Surface.mk 1 64 800 600 3200 8192 0]> (surfaces m))
     (cells m) (rects m)).

(** ** Lock order *)

(** No [GlobalLock] in [tr] comes while a surface mutex taken earlier in
    [tr] is still held; [held] counts the surface locks held so far. *)
Fixpoint global_first (held : nat) (tr : list event) : bool :=
  match tr with
  | [] => true
  | GlobalLock :: tr' => Nat.eqb held 0 && global_first held tr'
  | (Lock_ _ | RLock _) :: tr' => global_first (S held) tr'
  | (Unlock_ _ | RUnlock _) :: tr' => global_first (Nat.pred held) tr'
  | _ :: tr' => global_first held tr'
  end.

(** The events between [w] and [w'] respect the lock order: the global
    mutex is never requested while a surface mutex is held. *)
Definition lock_ordered (w w' : World) : Prop :=
  exists evs, trace w' = trace w ++ evs /\ global_first 0 evs = true.

(** * Properties *)

(** ** Conversions that lose nothing *)

Lemma to_uint16_id z : is_uint16 z -> to_uint16 z = z.
Proof. unfold is_uint16, to_uint16. intros Hz. now apply Z.mod_small. Qed.

Lemma to_uint32_id z : is_uint32 z -> to_uint32 z = z.
Proof. unfold is_uint32, to_uint32. intros Hz. now apply Z.mod_small. Qed.

Lemma to_int16_id z : is_int16 z -> to_int16 z = z.
Proof.
  unfold is_int16, to_int16. intros Hz.
  rewrite Z.mod_small; lia.
Qed.

Lemma to_int32_id z : is_int32 z -> to_int32 z = z.
Proof.
  unfold is_int32, to_int32. intros Hz.
  rewrite Z.mod_small; lia.
Qed.

(** ** Running Go code symbolically *)

Ltac go_unfold :=
  unfold GlobalMutex_Lock, GlobalMutex_Unlock, mutex_Lock, mutex_Unlock,
    mutex_RLock, mutex_RUnlock, load, store, new, call, get, log,
    set_GlobalMutex, set_currentVideoSurface, set_mutex,
    panic, block, out_of_fuel, mbind, M_bind, mret, M_ret in *.

(** Resolve the heap lookups left in the goal from the hypotheses. *)
Ltac heap_lookup :=
  repeat first
    [ rewrite lookup_insert_eq
    | rewrite lookup_insert_ne by congruence
    | match goal with
      | H : ?m !! ?k = _ |- context [?m !! ?k] => rewrite H
      end ].

Ltac go := go_unfold; repeat (progress (simpl; heap_lookup)).

Lemma fresh_location_unused (hp : gmap nat Surface) :
  hp !! fresh (dom hp) = None.
Proof. apply not_elem_of_dom, is_fresh. Qed.

(** ** [reload] *)

(** C7: after [reload] on a handle whose C pointer is non-null and points to
    a live [SDL_Surface], each of [Flags], [Format], [W], [H], [Pitch],
    [Pixels] and [Offset] equals the field of the C structure it mirrors;
    the C pointer, the mutex and the retained pixels are untouched. *)
Theorem reload_mirrors_foreign_fields
  (w : World) (a : nat) (v : Surface) (c : SDL_Surface.t) :
  heap w !! a = Some v ->
  cSurface v <> NULL ->
  surfaces (cmem w) !! cSurface v = Some c ->
  SDL_Surface.well_typed c ->
  exists v',
    reload (Some a) w
    = Ok tt (mkWorld (<[a := v']> (heap w)) (cmem w) (currentVideoSurface w)
               (GlobalMutex w) (trace w)) /\
    Flags v' = SDL_Surface.flags c /\
    Format v' = SDL_Surface.format c /\
    W v' = SDL_Surface.w c /\
    H v' = SDL_Surface.h c /\
    Pitch v' = SDL_Surface.pitch c /\
    Pixels v' = SDL_Surface.pixels c /\
    Offset v' = SDL_Surface.offset c /\
    cSurface v' = cSurface v /\ mutex v' = mutex v /\
    gcPixels v' = gcPixels v.
Proof.
  intros Hv Hnn Hc (Hf & Hw & Hh & Hp & Ho).
  destruct w as [hp cm cvs gm tr]; simpl in *.
  eexists. split.
  - unfold reload. go.
    destruct (Z.eqb_spec (cSurface v) NULL) as [|_]; [contradiction|].
    go. reflexivity.
  - simpl.
    rewrite to_uint32_id, !to_int32_id, to_uint16_id by assumption.
    repeat split.
Qed.

Lemma reload_mirrors_foreign_fields_witness :
  exists v',
    reload (Some 0%nat) stale_world
    = Ok tt (mkWorld (<[0%nat := v']> (heap stale_world)) (cmem stale_world)
               (currentVideoSurface stale_world) (GlobalMutex stale_world)
               (trace stale_world)) /\
    Flags v' = 1 /\ Format v' = 64 /\ W v' = 640 /\ H v' = 480 /\
    Pitch v' = 2560 /\ Pixels v' = 8192 /\ Offset v' = 0 /\
    cSurface v' = 4096 /\ mutex v' = unlocked /\ gcPixels v' = None.
Proof.
  apply (reload_mirrors_foreign_fields stale_world 0 stale screen_c).
  - reflexivity.
  - discriminate.
  - reflexivity.
  - unfold SDL_Surface.well_typed, is_uint32, is_int32, is_uint16; simpl; lia.
Defined.

(** ** [destroy] and [Free] *)

(** What [destroy] leaves of a surface. *)
Lemma destroy_run (w : World) (a : nat) (v : Surface) :
  heap w !! a = Some v ->
  destroy (Some a) w
  = Ok tt (mkWorld (<[a := destroyed v]> (heap w))
             (cmem w) (currentVideoSurface w) (GlobalMutex w) (trace w)).
Proof.
  intros Hv. destruct w as [hp cm cvs gm tr]; simpl in *.
  unfold destroy. go. reflexivity.
Qed.

(** C9: a second [destroy] on a destroyed handle returns normally and
    changes nothing. *)
Theorem destroy_idempotent (w : World) (a : nat) (v : Surface) :
  heap w !! a = Some v ->
  exists w1,
    destroy (Some a) w = Ok tt w1 /\
    destroy (Some a) w1 = Ok tt w1.
Proof.
  intros Hv. eexists. split.
  - apply (destroy_run w a v Hv).
  - erewrite destroy_run by (simpl; apply lookup_insert_eq).
    simpl. now rewrite insert_insert_eq.
Qed.

Lemma destroy_idempotent_witness :
  exists w1,
    destroy (Some 0%nat) onscreen_world = Ok tt w1 /\
    destroy (Some 0%nat) w1 = Ok tt w1.
Proof. apply (destroy_idempotent onscreen_world 0 screen). reflexivity. Defined.

(** C10: [BlitSurface] is [Blit] with the arguments in the other order:
    same result, same final world, on every input. *)
Theorem BlitSurface_is_Blit
  (native : native_call -> CMem -> Z * CMem)
  (src : option nat) (srcrect : Z) (dst : option nat) (dstrect : Z)
  (w : World) :
  BlitSurface native src srcrect dst dstrect w
  = Blit native dst dstrect src srcrect w.
Proof. reflexivity. Qed.

(** [Free] on an unlocked surface, with the global mutex free. *)
Lemma Free_run (native : native_call -> CMem -> Z * CMem)
  (w : World) (a : nat) (v : Surface) :
  heap w !! a = Some v ->
  GlobalMutex w = false ->
  mutex v = mkRWMutex false 0 ->
  Free native (Some a) w
  = Ok tt (mkWorld (<[a := destroyed v]> (heap w))
             (snd (native (SDL_FreeSurface (cSurface v)) (cmem w)))
             (if decide (Some a = currentVideoSurface w) then None
              else currentVideoSurface w)
             false
             (trace w ++ [GlobalLock; Lock_ a;
                          Call (SDL_FreeSurface (cSurface v));
                          Unlock_ a; GlobalUnlock])).
Proof.
  intros Hv Hg Hm. destruct w as [hp cm cvs gm tr]; simpl in *; subst gm.
  destruct v as [c mu fl fo wd ht pi px off gc]; simpl in *; subst mu.
  unfold Free, destroy. go.
  destruct (native (SDL_FreeSurface c) cm) as [r m]. go.
  destruct (decide (Some a = cvs)); go;
    rewrite !insert_insert_eq, <- !app_assoc; reflexivity.
Qed.

(** [Quit] destroys the current video surface, if there is one, and forgets
    it. *)
Lemma Quit_run (native : native_call -> CMem -> Z * CMem)
  (w : World) (a : nat) (v : Surface) :
  GlobalMutex w = false ->
  currentVideoSurface w = Some a ->
  heap w !! a = Some v ->
  Quit native w
  = Ok tt (mkWorld (<[a := destroyed v]> (heap w))
             (snd (native SDL_Quit (cmem w))) None false
             (trace w ++ [GlobalLock; Call SDL_Quit; GlobalUnlock])).
Proof.
  intros Hg Hc Hv. destruct w as [hp cm cvs gm tr]; simpl in *; subst gm cvs.
  unfold Quit, destroy. go.
  destruct (native SDL_Quit cm) as [r m]. go.
  rewrite <- !app_assoc. reflexivity.
Qed.

(** C2, as the code has it: [destroy] nulls the C pointer and the two
    pointer-valued shadow fields [Format] and [Pixels] and drops the retained
    pixels; [Flags], [W], [H], [Pitch] and [Offset] keep their values and the
    current video surface is left alone.  It is [Free], after its call to
    [destroy], that clears the current video surface when the freed surface
    is the one it holds. *)
Theorem destroy_nulls_pointers_Free_clears_slot
  (native : native_call -> CMem -> Z * CMem)
  (w : World) (a : nat) (v : Surface) :
  heap w !! a = Some v ->
  GlobalMutex w = false ->
  mutex v = mkRWMutex false 0 ->
  (exists w1,
      destroy (Some a) w = Ok tt w1 /\
      heap w1 !! a
      = Some (mkSurface NULL (mutex v) (Flags v) NULL (W v) (H v) (Pitch v)
                NULL (Offset v) None) /\
      currentVideoSurface w1 = currentVideoSurface w) /\
  (exists w2,
      Free native (Some a) w = Ok tt w2 /\
      heap w2 !! a
      = Some (mkSurface NULL (mutex v) (Flags v) NULL (W v) (H v) (Pitch v)
                NULL (Offset v) None) /\
      currentVideoSurface w2
      = if decide (currentVideoSurface w = Some a) then None
        else currentVideoSurface w).
Proof.
  intros Hv Hg Hm. split.
  - eexists. split; [apply (destroy_run w a v Hv)|].
    simpl. split; [apply lookup_insert_eq | reflexivity].
  - eexists. split; [apply (Free_run native w a v Hv Hg Hm)|].
    simpl. split; [apply lookup_insert_eq|].
    destruct (decide (Some a = currentVideoSurface w)) as [E|E];
      destruct (decide (currentVideoSurface w = Some a)) as [E'|E'];
      congruence.
Qed.

Lemma destroy_nulls_pointers_Free_clears_slot_witness :
  (exists w1,
      destroy (Some 0%nat) onscreen_world = Ok tt w1 /\
      heap w1 !! 0%nat
      = Some (mkSurface NULL unlocked 1 NULL 640 480 2560 NULL 0 None) /\
      currentVideoSurface w1 = Some 0%nat) /\
  (exists w2,
      Free stub (Some 0%nat) onscreen_world = Ok tt w2 /\
      heap w2 !! 0%nat
      = Some (mkSurface NULL unlocked 1 NULL 640 480 2560 NULL 0 None) /\
      currentVideoSurface w2 = None).
Proof.
  apply (destroy_nulls_pointers_Free_clears_slot stub onscreen_world 0 screen);
    reflexivity.
Defined.

(** C2 as stated fails: after [destroy] on the video surface of
    [onscreen_world] the fields [Flags], [W], [H] and [Pitch] still hold 1,
    640, 480 and 2560, and the current video surface is still that handle. *)
Lemma destroy_keeps_geometry_and_slot :
  exists w1 v1,
    destroy (Some 0%nat) onscreen_world = Ok tt w1 /\
    heap w1 !! 0%nat = Some v1 /\
    Flags v1 = 1 /\ W v1 = 640 /\ H v1 = 480 /\ Pitch v1 = 2560 /\
    currentVideoSurface w1 = Some 0%nat.
Proof.
  eexists. eexists. split; [reflexivity|].
  split; [reflexivity|]. repeat split.
Qed.

(** ** [wrap] and the factories *)

Lemma wrap_NULL (w : World) : wrap NULL w = Ok None w.
Proof. reflexivity. Qed.

Lemma wrap_run (c : Z) (cs : SDL_Surface.t) (w : World) :
  c <> NULL ->
  surfaces (cmem w) !! c = Some cs ->
  wrap c w
  = Ok (Some (fresh (dom (heap w))))
      (mkWorld (<[fresh (dom (heap w)) := wrapped c cs]> (heap w)) (cmem w)
         (currentVideoSurface w) (GlobalMutex w) (trace w)).
Proof.
  intros Hc Hcs. destruct w as [hp cm cvs gm tr]; simpl in *.
  unfold wrap, SetCSurface, reload.
  destruct (Z.eqb_spec c NULL) as [|_]; [contradiction|].
  go. destruct (Z.eqb_spec c NULL) as [|_]; [contradiction|].
  go. rewrite !insert_insert_eq. reflexivity.
Qed.

(** [wrap] never touches a surface that is already on the heap. *)
Lemma wrap_keeps_heap (c : Z) (w : World) (s : option nat) (w' : World) :
  wrap c w = Ok s w' ->
  forall a v, heap w !! a = Some v -> heap w' !! a = Some v.
Proof.
  intros Hwrap a v Hv. destruct w as [hp cm cvs gm tr]; simpl in *.
  unfold wrap, SetCSurface, reload in Hwrap.
  destruct (Z.eqb_spec c NULL) as [|_].
  - go. injection Hwrap as <- <-. exact Hv.
  - revert Hwrap. go. destruct (Z.eqb_spec c NULL) as [|_]; [discriminate|].
    destruct (surfaces cm !! c); [|discriminate].
    go. intros [= <- <-]. simpl.
    rewrite !insert_insert_eq.
    rewrite lookup_insert_ne; [exact Hv|].
    intros E. pose proof (fresh_location_unused hp) as Hf.
    rewrite E in Hf. congruence.
Qed.

(** C8: with the global mutex free and the C library answering NULL or a
    live surface, [SetVideoMode] returns the handle [wrap] makes of that
    answer and stores it as the current video surface whatever was there
    before; every surface already on the heap, the previous video surface
    included, is left as it was; and [GetVideoSurface] then returns that
    same handle. *)
Theorem SetVideoMode_replaces_current
  (native : native_call -> CMem -> Z * CMem)
  (w : World) (wd ht bpp flags : Z) :
  GlobalMutex w = false ->
  let c := SDL_SetVideoMode (to_int32 wd) (to_int32 ht) (to_int32 bpp)
             (to_uint32 flags) in
  let screen := fst (native c (cmem w)) in
  let m := snd (native c (cmem w)) in
  (screen = NULL \/ is_Some (surfaces m !! screen)) ->
  exists s w1,
    SetVideoMode native wd ht bpp flags w = Ok s w1 /\
    currentVideoSurface w1 = s /\
    (exists w0,
        wrap screen
          (mkWorld (heap w) m (currentVideoSurface w) true
             (trace w ++ [GlobalLock; Call c]))
        = Ok s w0 /\
        heap w1 = heap w0) /\
    (screen = NULL <-> s = None) /\
    (forall a v, heap w !! a = Some v -> heap w1 !! a = Some v) /\
    GetVideoSurface w1
    = Ok s (mkWorld (heap w1) (cmem w1) s false
              (trace w1 ++ [GlobalLock; GlobalUnlock])).
Proof.
  intros Hg c screen m Hscreen.
  destruct w as [hp cm cvs gm tr]; simpl in *; subst gm.
  unfold SetVideoMode, GetVideoSurface. go. fold c.
  subst screen m. destruct (native c cm) as [p m']; simpl in *.
  destruct Hscreen as [-> | [cs Hcs]].
  - rewrite wrap_NULL. go.
    eexists; eexists. split; [reflexivity|]. simpl.
    rewrite <- !app_assoc. simpl.
    repeat split; auto. eexists; split; reflexivity.
  - destruct (Z.eq_dec p NULL) as [-> | Hp].
    + rewrite wrap_NULL. go.
      eexists; eexists. split; [reflexivity|]. simpl.
      rewrite <- !app_assoc. simpl.
      repeat split; auto. eexists; split; reflexivity.
    + pose proof (wrap_run p cs
        (mkWorld hp m' cvs true ((tr ++ [GlobalLock]) ++ [Call c])) Hp Hcs)
        as Hw.
      pose proof (wrap_keeps_heap _ _ _ _ Hw) as Hkeep.
      simpl in Hw, Hkeep. rewrite Hw. go.
      eexists; eexists. split; [reflexivity|]. simpl.
      rewrite <- !app_assoc in *. simpl in *. rewrite Hw.
      repeat split; auto; try congruence.
      eexists; split; reflexivity.
Qed.

Lemma SetVideoMode_replaces_current_witness :
  exists s w1,
    SetVideoMode stub 800 600 32 0 onscreen_world = Ok s w1 /\
    currentVideoSurface w1 = s /\
    (exists w0,
        wrap 4096
          (mkWorld (heap onscreen_world)
             (snd (stub (SDL_SetVideoMode 800 600 32 0) stub_mem))
             (Some 0%nat) true
             [GlobalLock; Call (SDL_SetVideoMode 800 600 32 0)])
        = Ok s w0 /\
        heap w1 = heap w0) /\
    (4096 = NULL <-> s = None) /\
    (forall a v,
        heap onscreen_world !! a = Some v -> heap w1 !! a = Some v) /\
    GetVideoSurface w1
    = Ok s (mkWorld (heap w1) (cmem w1) s false
              (trace w1 ++ [GlobalLock; GlobalUnlock])).
Proof.
  apply (SetVideoMode_replaces_current stub onscreen_world 800 600 32 0).
  - reflexivity.
  - right. exists (SDL_Surface.mk 0 64 800 600 3200 8192 0). reflexivity.
Defined.

(** The factories other than [CreateRGBSurfaceFrom] hand a NULL from the C
    library on as a nil handle. *)
Lemma Load_NULL (native : native_call -> CMem -> Z * CMem)
  (file : string) (w : World) :
  GlobalMutex w = false ->
  fst (native (IMG_Load file) (cmem w)) = NULL ->
  exists w', Load native file w = Ok None w'.
Proof.
  intros Hg Hn. destruct w as [hp cm cvs gm tr]; simpl in *; subst gm.
  unfold Load. go. destruct (native (IMG_Load file) cm) as [p m].
  simpl in Hn; subst p. go. eexists; reflexivity.
Qed.

Lemma CreateRGBSurface_NULL (native : native_call -> CMem -> Z * CMem)
  (flags width height bpp Rmask Gmask Bmask Amask : Z) (w : World) :
  GlobalMutex w = false ->
  fst (native (SDL_CreateRGBSurface (to_uint32 flags) (to_int32 width)
                 (to_int32 height) (to_int32 bpp) (to_uint32 Rmask)
                 (to_uint32 Gmask) (to_uint32 Bmask) (to_uint32 Amask))
         (cmem w)) = NULL ->
  exists w',
    CreateRGBSurface native flags width height bpp Rmask Gmask Bmask Amask w
    = Ok None w'.
Proof.
  intros Hg Hn. destruct w as [hp cm cvs gm tr]; simpl in *; subst gm.
  unfold CreateRGBSurface. go.
  destruct (native _ cm) as [p m]. simpl in Hn; subst p. go.
  eexists; reflexivity.
Qed.

Lemma DisplayFormat_NULL (native : native_call -> CMem -> Z * CMem)
  (a : nat) (v : Surface) (w : World) :
  heap w !! a = Some v ->
  writer (mutex v) = false ->
  fst (native (SDL_DisplayFormat (cSurface v)) (cmem w)) = NULL ->
  exists w', DisplayFormat native (Some a) w = Ok None w'.
Proof.
  intros Hv Hm Hn. destruct w as [hp cm cvs gm tr]; simpl in *.
  destruct v as [c [wr rd] fl fo wd ht pi px off gc]; simpl in *; subst wr.
  unfold DisplayFormat. go.
  destruct (native _ cm) as [p m]. simpl in Hn; subst p. go.
  eexists; reflexivity.
Qed.

Lemma Zoom_NULL (native : native_call -> CMem -> Z * CMem)
  (a : nat) (v : Surface) (zoomX zoomY : Z) (smooth : bool) (w : World) :
  heap w !! a = Some v ->
  fst (native (zoomSurface (cSurface v) zoomX zoomY
                 (if smooth then 1 else 0)) (cmem w)) = NULL ->
  exists w', Zoom native (Some a) zoomX zoomY smooth w = Ok None w'.
Proof.
  intros Hv Hn. destruct w as [hp cm cvs gm tr]; simpl in *.
  unfold Zoom. go.
  destruct (native _ cm) as [p m]. simpl in Hn; subst p. go.
  eexists; reflexivity.
Qed.

(** When the C library answers with a live surface, [CreateRGBSurfaceFrom]
    returns a fresh handle over it, its shadow loaded and the caller's
    pixels retained. *)
Lemma CreateRGBSurfaceFrom_run
  (native : native_call -> CMem -> Z * CMem)
  (pixels : option GoValue)
  (width height bpp pitch Rmask Gmask Bmask Amask : Z) (w : World)
  (cs : SDL_Surface.t) :
  GlobalMutex w = false ->
  (Kind_of pixels = Ptr \/ Kind_of pixels = UnsafePointer \/
   Kind_of pixels = Slice) ->
  let c := SDL_CreateRGBSurfaceFrom (from_option Pointer NULL pixels)
             (to_int32 width) (to_int32 height) (to_int32 bpp)
             (to_int32 pitch) (to_uint32 Rmask) (to_uint32 Gmask)
             (to_uint32 Bmask) (to_uint32 Amask) in
  let p := fst (native c (cmem w)) in
  p <> NULL ->
  surfaces (snd (native c (cmem w))) !! p = Some cs ->
  exists a v w',
    CreateRGBSurfaceFrom native pixels width height bpp pitch
      Rmask Gmask Bmask Amask w = Ok (Some a) w' /\
    heap w !! a = None /\
    heap w' !! a = Some v /\
    cSurface v = p /\ gcPixels v = pixels /\
    Flags v = to_uint32 (SDL_Surface.flags cs) /\
    Format v = SDL_Surface.format cs /\
    W v = to_int32 (SDL_Surface.w cs) /\
    H v = to_int32 (SDL_Surface.h cs) /\
    Pitch v = to_uint16 (SDL_Surface.pitch cs) /\
    Pixels v = SDL_Surface.pixels cs /\
    Offset v = to_int32 (SDL_Surface.offset cs).
Proof.
  intros Hg Hk c p Hp Hcs.
  destruct w as [hp cm cvs gm tr]; simpl in *; subst gm.
  unfold CreateRGBSurfaceFrom, pixels_pointer.
  assert (Hptr : (match Kind_of pixels with
                  | Ptr | UnsafePointer | Slice =>
                      mret (from_option Pointer NULL pixels)
                  | k => panic ("Don't know how to handle type: "
                                 +:+ Kind_String k)
                  end : M Z) = mret (from_option Pointer NULL pixels)).
  { destruct Hk as [-> | [-> | ->]]; reflexivity. }
  rewrite Hptr. go. fold c. subst p.
  destruct (native c cm) as [p m]. simpl in *.
  unfold wrap, SetCSurface, reload.
  destruct (Z.eqb_spec p NULL) as [|_]; [contradiction|].
  go. destruct (Z.eqb_spec p NULL) as [|_]; [contradiction|].
  go. eexists; eexists; eexists. split; [reflexivity|].
  simpl. split; [apply fresh_location_unused|].
  split; [apply lookup_insert_eq|]. simpl. repeat split.
Qed.

(** C5, where the code departs from it: when the C library answers NULL,
    [CreateRGBSurfaceFrom] gets a nil handle from [wrap] and then assigns
    [s.gcPixels] through it, so the call panics with a nil dereference
    instead of returning nil. *)
Theorem CreateRGBSurfaceFrom_NULL_panics
  (native : native_call -> CMem -> Z * CMem)
  (pixels : option GoValue)
  (width height bpp pitch Rmask Gmask Bmask Amask : Z) (w : World) :
  GlobalMutex w = false ->
  (Kind_of pixels = Ptr \/ Kind_of pixels = UnsafePointer \/
   Kind_of pixels = Slice) ->
  let c := SDL_CreateRGBSurfaceFrom (from_option Pointer NULL pixels)
             (to_int32 width) (to_int32 height) (to_int32 bpp)
             (to_int32 pitch) (to_uint32 Rmask) (to_uint32 Gmask)
             (to_uint32 Bmask) (to_uint32 Amask) in
  fst (native c (cmem w)) = NULL ->
  CreateRGBSurfaceFrom native pixels width height bpp pitch
    Rmask Gmask Bmask Amask w
  = Panic nil_dereference
      (mkWorld (heap w) (snd (native c (cmem w))) (currentVideoSurface w)
         false (trace w ++ [GlobalLock; Call c; GlobalUnlock])).
Proof.
  intros Hg Hk c Hn.
  destruct w as [hp cm cvs gm tr]; simpl in *; subst gm.
  unfold CreateRGBSurfaceFrom, pixels_pointer.
  assert (Hp : (match Kind_of pixels with
                | Ptr | UnsafePointer | Slice =>
                    mret (from_option Pointer NULL pixels)
                | k => panic ("Don't know how to handle type: "
                               +:+ Kind_String k)
                end : M Z) = mret (from_option Pointer NULL pixels)).
  { destruct Hk as [-> | [-> | ->]]; reflexivity. }
  rewrite Hp. go. fold c.
  destruct (native c cm) as [p m]. simpl in Hn; subst p. go.
  rewrite <- !app_assoc. reflexivity.
Qed.

Lemma CreateRGBSurfaceFrom_NULL_panics_witness :
  CreateRGBSurfaceFrom stub (Some (mkGoValue Slice 16384)) 32 32 0 128
    0 0 0 0 empty_world
  = Panic nil_dereference
      (mkWorld ∅ stub_mem None false
         [GlobalLock;
          Call (SDL_CreateRGBSurfaceFrom 16384 32 32 0 128 0 0 0 0);
          GlobalUnlock]).
Proof.
  apply (CreateRGBSurfaceFrom_NULL_panics stub
           (Some (mkGoValue Slice 16384)) 32 32 0 128 0 0 0 0 empty_world).
  - reflexivity.
  - right; right; reflexivity.
  - reflexivity.
Defined.

(** ** The pixel shapes [CreateRGBSurfaceFrom] takes *)

Lemma Kind_String_inj (k1 k2 : Kind) :
  Kind_String k1 = Kind_String k2 -> k1 = k2.
Proof. destruct k1, k2; simpl; intros E; try reflexivity; discriminate E. Qed.

Lemma pixels_pointer_accepted (pixels : option GoValue) :
  Kind_of pixels = Ptr \/ Kind_of pixels = UnsafePointer \/
  Kind_of pixels = Slice ->
  pixels_pointer pixels = mret (from_option Pointer NULL pixels).
Proof.
  unfold pixels_pointer. intros [-> | [-> | ->]]; reflexivity.
Qed.

Lemma pixels_pointer_rejected (pixels : option GoValue) (w : World) :
  Kind_of pixels <> Ptr -> Kind_of pixels <> UnsafePointer ->
  Kind_of pixels <> Slice ->
  pixels_pointer pixels w
  = Panic ("Don't know how to handle type: "
           +:+ Kind_String (Kind_of pixels)) w.
Proof.
  unfold pixels_pointer. intros H1 H2 H3.
  destruct (Kind_of pixels); try reflexivity; congruence.
Qed.

(** C6, as the code has it: [CreateRGBSurfaceFrom] takes a pointer, an
    unsafe pointer or a slice, and passes the value's data address to
    [SDL_CreateRGBSurfaceFrom] under the global mutex.  A value of any other
    kind, a Go array among them, makes it panic with a message that ends in
    the name of that kind (distinct kinds have distinct names); nothing has
    been locked or called by then and the world is unchanged. *)
Theorem CreateRGBSurfaceFrom_shapes
  (native : native_call -> CMem -> Z * CMem)
  (pixels : option GoValue)
  (width height bpp pitch Rmask Gmask Bmask Amask : Z) (w : World) :
  let k := Kind_of pixels in
  (k = Ptr \/ k = UnsafePointer \/ k = Slice ->
   GlobalMutex w = false ->
   trace (world_of (CreateRGBSurfaceFrom native pixels width height bpp
                      pitch Rmask Gmask Bmask Amask w))
   = trace w ++
     [GlobalLock;
      Call (SDL_CreateRGBSurfaceFrom (from_option Pointer NULL pixels)
              (to_int32 width) (to_int32 height) (to_int32 bpp)
              (to_int32 pitch) (to_uint32 Rmask) (to_uint32 Gmask)
              (to_uint32 Bmask) (to_uint32 Amask));
      GlobalUnlock]) /\
  (k <> Ptr -> k <> UnsafePointer -> k <> Slice ->
   CreateRGBSurfaceFrom native pixels width height bpp pitch
     Rmask Gmask Bmask Amask w
   = Panic ("Don't know how to handle type: " +:+ Kind_String k) w) /\
  (forall k1 k2, Kind_String k1 = Kind_String k2 -> k1 = k2).
Proof.
  intros k. split; [|split].
  - intros Hk Hg.
    destruct w as [hp cm cvs gm tr]; simpl in *; subst gm.
    unfold CreateRGBSurfaceFrom.
    rewrite (pixels_pointer_accepted pixels Hk). go.
    destruct (native _ cm) as [p m].
    unfold wrap, SetCSurface, reload.
    destruct (Z.eqb_spec p NULL) as [|Hp'];
      [go; rewrite <- !app_assoc; reflexivity|].
    go. destruct (Z.eqb_spec p NULL) as [|_]; [contradiction|].
    destruct (surfaces m !! p); go; rewrite <- !app_assoc; reflexivity.
  - intros H1 H2 H3. unfold CreateRGBSurfaceFrom.
    unfold mbind at 1. unfold M_bind.
    now rewrite (pixels_pointer_rejected pixels w H1 H2 H3).
  - apply Kind_String_inj.
Qed.

Lemma CreateRGBSurfaceFrom_shapes_witness :
  trace (world_of (CreateRGBSurfaceFrom stub (Some (mkGoValue Slice 16384))
                     32 32 32 128 0 0 0 0 empty_world))
  = [GlobalLock; Call (SDL_CreateRGBSurfaceFrom 16384 32 32 32 128 0 0 0 0);
     GlobalUnlock] /\
  CreateRGBSurfaceFrom stub (Some (mkGoValue Uintptr 16384))
    32 32 32 128 0 0 0 0 empty_world
  = Panic "Don't know how to handle type: uintptr" empty_world.
Proof.
  split.
  - apply (CreateRGBSurfaceFrom_shapes stub (Some (mkGoValue Slice 16384))
             32 32 32 128 0 0 0 0 empty_world).
    + right; right; reflexivity.
    + reflexivity.
  - apply (CreateRGBSurfaceFrom_shapes stub (Some (mkGoValue Uintptr 16384))
             32 32 32 128 0 0 0 0 empty_world); discriminate.
Defined.

(** C6 as stated fails: an array value is one of the shapes the
    specification lists, and [CreateRGBSurfaceFrom] panics on it. *)
Lemma CreateRGBSurfaceFrom_rejects_array :
  spec_accepted_shape Array = true /\
  CreateRGBSurfaceFrom stub (Some (mkGoValue Array 16384))
    32 32 32 128 0 0 0 0 empty_world
  = Panic "Don't know how to handle type: array" empty_world.
Proof. split; reflexivity. Qed.

(** ** Operations on a surface: locks taken, C calls made *)

Lemma FillRect_run (native : native_call -> CMem -> Z * CMem)
  (w : World) (a : nat) (v : Surface) (dstrect color : Z) :
  heap w !! a = Some v ->
  mutex v = mkRWMutex false 0 ->
  let c := SDL_FillRect (cSurface v) dstrect (to_uint32 color) in
  FillRect native (Some a) dstrect color w
  = Ok (fst (native c (cmem w)))
      (mkWorld (heap w) (snd (native c (cmem w))) (currentVideoSurface w)
         (GlobalMutex w) (trace w ++ [Lock_ a; Call c; Unlock_ a])).
Proof.
  intros Hv Hm c. destruct w as [hp cm cvs gm tr]; simpl in *.
  destruct v as [cs mu fl fo wd ht pi px off gc]; simpl in *; subst mu.
  unfold FillRect. go. fold c. destruct (native c cm) as [r m]. go.
  rewrite !insert_insert_eq, <- !app_assoc, (insert_id hp a) by assumption.
  reflexivity.
Qed.

Lemma Lock_run (native : native_call -> CMem -> Z * CMem)
  (w : World) (a : nat) (v : Surface) :
  heap w !! a = Some v ->
  mutex v = mkRWMutex false 0 ->
  let c := SDL_LockSurface (cSurface v) in
  Lock native (Some a) w
  = Ok (fst (native c (cmem w)))
      (mkWorld (heap w) (snd (native c (cmem w))) (currentVideoSurface w)
         (GlobalMutex w) (trace w ++ [Lock_ a; Call c; Unlock_ a])).
Proof.
  intros Hv Hm c. destruct w as [hp cm cvs gm tr]; simpl in *.
  destruct v as [cs mu fl fo wd ht pi px off gc]; simpl in *; subst mu.
  unfold Lock. go. fold c. destruct (native c cm) as [r m]. go.
  rewrite !insert_insert_eq, <- !app_assoc, (insert_id hp a) by assumption.
  reflexivity.
Qed.

(** [Blit] between two distinct surfaces, the global mutex and the
    destination's mutex free and no writer on the source.  [global] tells
    whether one of the two is the current video surface. *)
Lemma Blit_run (native : native_call -> CMem -> Z * CMem)
  (w : World) (d s : nat) (vd vs : Surface) (dstrect srcrect : Z) :
  GlobalMutex w = false ->
  d <> s ->
  heap w !! d = Some vd ->
  heap w !! s = Some vs ->
  mutex vd = mkRWMutex false 0 ->
  writer (mutex vs) = false ->
  let c := SDL_UpperBlit (cSurface vs) srcrect (cSurface vd) dstrect in
  let global :=
    negb (bool_decide (Some s <> currentVideoSurface w)
          && bool_decide (Some d <> currentVideoSurface w)) in
  Blit native (Some d) dstrect (Some s) srcrect w
  = Ok (fst (native c (cmem w)))
      (mkWorld (heap w) (snd (native c (cmem w))) (currentVideoSurface w)
         false
         (trace w ++
          if global
          then [GlobalLock; RLock s; Lock_ d; Call c; Unlock_ d; RUnlock s;
                GlobalUnlock]
          else [GlobalLock; GlobalUnlock; RLock s; Lock_ d; Call c;
                Unlock_ d; RUnlock s])).
Proof.
  intros Hg Hne Hd Hs Hmd Hms c global.
  destruct w as [hp cm cvs gm tr]; simpl in *; subst gm.
  destruct vd as [cd mud fld fod wdd htd pid pxd offd gcd].
  destruct vs as [cs [wrs rds] fls fos wds hts pis pxs offs gcs].
  simpl in *; subst mud wrs.
  unfold Blit. subst global. go.
  destruct (bool_decide (Some s <> cvs) && bool_decide (Some d <> cvs));
    go; fold c; destruct (native c cm) as [r m]; go;
    rewrite <- !app_assoc; simpl; do 2 f_equal;
    apply map_eq; intros k;
    destruct (decide (k = s)) as [->|]; heap_lookup; try reflexivity;
    destruct (decide (k = d)) as [->|]; heap_lookup; reflexivity.
Qed.

Lemma calls_app (tr1 tr2 : list event) :
  calls (tr1 ++ tr2) = calls tr1 ++ calls tr2.
Proof. unfold calls. apply omap_app. Qed.

(** Source and destination the same surface: [dst.mutex.Lock] waits for the
    read lock [Blit] itself holds. *)
Lemma Blit_same_surface_blocks (native : native_call -> CMem -> Z * CMem)
  (w : World) (a : nat) (v : Surface) (dstrect srcrect : Z) :
  GlobalMutex w = false ->
  heap w !! a = Some v ->
  writer (mutex v) = false ->
  exists w',
    Blit native (Some a) dstrect (Some a) srcrect w = Blocked w' /\
    calls (trace w') = calls (trace w).
Proof.
  intros Hg Hv Hm. destruct w as [hp cm cvs gm tr]; simpl in *; subst gm.
  destruct v as [cs [wr rd] fl fo wd ht pi px off gc]; simpl in *; subst wr.
  unfold Blit. go.
  destruct (bool_decide (Some a <> cvs) && bool_decide (Some a <> cvs)); go;
    eexists; (split; [reflexivity|]); simpl;
    rewrite !calls_app; simpl; now rewrite !app_nil_r.
Qed.

(** A nil source: [Blit] panics at [src.mutex.RLock], before the C call. *)
Lemma Blit_nil_src (native : native_call -> CMem -> Z * CMem)
  (w : World) (dst : option nat) (dstrect srcrect : Z) :
  GlobalMutex w = false ->
  exists w',
    Blit native dst dstrect None srcrect w = Panic nil_dereference w' /\
    calls (trace w') = calls (trace w).
Proof.
  intros Hg. destruct w as [hp cm cvs gm tr]; simpl in *; subst gm.
  unfold Blit. go.
  destruct (bool_decide (None <> cvs) && bool_decide (dst <> cvs)); go;
    eexists; (split; [reflexivity|]); simpl;
    rewrite !calls_app; simpl; now rewrite !app_nil_r.
Qed.

(** A nil destination: [Blit] panics at [dst.mutex.Lock], before the C
    call. *)
Lemma Blit_nil_dst (native : native_call -> CMem -> Z * CMem)
  (w : World) (s : nat) (vs : Surface) (dstrect srcrect : Z) :
  GlobalMutex w = false ->
  heap w !! s = Some vs ->
  writer (mutex vs) = false ->
  exists w',
    Blit native None dstrect (Some s) srcrect w = Panic nil_dereference w' /\
    calls (trace w') = calls (trace w).
Proof.
  intros Hg Hs Hm. destruct w as [hp cm cvs gm tr]; simpl in *; subst gm.
  destruct vs as [cs [wrs rds] fls fos wds hts pis pxs offs gcs].
  simpl in *; subst wrs.
  unfold Blit. go.
  destruct (bool_decide (Some s <> cvs) && bool_decide (None <> cvs)); go;
    eexists; (split; [reflexivity|]); simpl;
    rewrite !calls_app; simpl; now rewrite !app_nil_r.
Qed.

(** C1, as the code has it: [Blit] always takes the global mutex first, to
    compare the two handles with the current video surface.  If neither is
    the video surface the global mutex is released at once, before any
    surface mutex is taken, and is not held during the C blit; if one of
    them is, it is held until both surface mutexes are released.  The two
    surface mutexes are taken source first (shared), then destination
    (exclusive), and released destination first, then source.
    [BlitSurface] behaves the same. *)
Theorem Blit_lock_order (native : native_call -> CMem -> Z * CMem)
  (w : World) (d s : nat) (vd vs : Surface) (dstrect srcrect : Z) :
  GlobalMutex w = false ->
  d <> s ->
  heap w !! d = Some vd ->
  heap w !! s = Some vs ->
  mutex vd = mkRWMutex false 0 ->
  writer (mutex vs) = false ->
  let c := SDL_UpperBlit (cSurface vs) srcrect (cSurface vd) dstrect in
  exists r w',
    Blit native (Some d) dstrect (Some s) srcrect w = Ok r w' /\
    BlitSurface native (Some s) srcrect (Some d) dstrect w = Ok r w' /\
    GlobalMutex w' = false /\
    (currentVideoSurface w <> Some s ->
     currentVideoSurface w <> Some d ->
     trace w' = trace w ++
                [GlobalLock; GlobalUnlock;
                 RLock s; Lock_ d; Call c; Unlock_ d; RUnlock s]) /\
    (currentVideoSurface w = Some s \/ currentVideoSurface w = Some d ->
     trace w' = trace w ++
                [GlobalLock;
                 RLock s; Lock_ d; Call c; Unlock_ d; RUnlock s;
                 GlobalUnlock]).
Proof.
  intros Hg Hne Hd Hs Hmd Hms c.
  eexists; eexists. unfold BlitSurface.
  split; [apply (Blit_run native w d s vd vs dstrect srcrect); assumption|].
  split; [apply (Blit_run native w d s vd vs dstrect srcrect); assumption|].
  simpl. split; [reflexivity|]. split.
  - intros H1 H2.
    rewrite !bool_decide_eq_true_2 by congruence. reflexivity.
  - intros [H1 | H1].
    + rewrite (bool_decide_eq_false_2 (Some s <> currentVideoSurface w))
        by (intros E; apply E; congruence).
      reflexivity.
    + rewrite (bool_decide_eq_false_2 (Some d <> currentVideoSurface w))
        by (intros E; apply E; congruence).
      rewrite andb_false_r. reflexivity.
Qed.

Lemma Blit_lock_order_witness :
  exists r w',
    Blit stub (Some 1%nat) 0 (Some 0%nat) 0 onscreen_world = Ok r w' /\
    BlitSurface stub (Some 0%nat) 0 (Some 1%nat) 0 onscreen_world = Ok r w' /\
    GlobalMutex w' = false /\
    (currentVideoSurface onscreen_world <> Some 0%nat ->
     currentVideoSurface onscreen_world <> Some 1%nat ->
     trace w' = trace onscreen_world ++
                [GlobalLock; GlobalUnlock;
                 RLock 0; Lock_ 1; Call (SDL_UpperBlit 4096 0 12288 0);
                 Unlock_ 1; RUnlock 0]) /\
    (currentVideoSurface onscreen_world = Some 0%nat \/
     currentVideoSurface onscreen_world = Some 1%nat ->
     trace w' = trace onscreen_world ++
                [GlobalLock;
                 RLock 0; Lock_ 1; Call (SDL_UpperBlit 4096 0 12288 0);
                 Unlock_ 1; RUnlock 0;
                 GlobalUnlock]).
Proof.
  apply (Blit_lock_order stub onscreen_world 1 0 sprite screen 0 0).
  - reflexivity.
  - discriminate.
  - reflexivity.
  - reflexivity.
  - reflexivity.
  - reflexivity.
Defined.

(** C1 as stated fails: in [offscreen_world] neither surface is the video
    surface, yet the blit from the surface at 0 to the surface at 1 locks
    the global mutex, and it takes the source's shared lock before the
    destination's exclusive lock, not after. *)
Lemma Blit_offscreen_locks_global_and_source_first :
  currentVideoSurface offscreen_world = None /\
  exists w',
    Blit stub (Some 1%nat) 0 (Some 0%nat) 0 offscreen_world = Ok 0 w' /\
    trace w'
    = [GlobalLock; GlobalUnlock; RLock 0; Lock_ 1;
       Call (SDL_UpperBlit 4096 0 12288 0); Unlock_ 1; RUnlock 0] /\
    trace w' <> spec_Blit_events false 0 1 (SDL_UpperBlit 4096 0 12288 0) /\
    GlobalLock ∈ trace w' /\
    precedes (Lock_ 1) (RLock 0) (trace w') = false /\
    precedes (RLock 0) (Lock_ 1) (trace w') = true.
Proof.
  split; [reflexivity|].
  eexists. split.
  { apply (Blit_run stub offscreen_world 1 0 sprite screen 0 0);
      reflexivity || discriminate. }
  simpl. split; [reflexivity|]. split; [discriminate|].
  split; [apply list_elem_of_here|]. split; vm_compute; reflexivity.
Qed.

(** C3, as the code has it: on a nil handle [FillRect], [Lock] and [Blit]
    panic with a nil dereference when they reach for the handle's mutex,
    before any C call.  On a destroyed handle nothing is checked: the
    operation takes its locks, passes the NULL pointer to the C function and
    returns what the C function answers. *)
Theorem nil_handle_panics_destroyed_handle_reaches_C
  (native : native_call -> CMem -> Z * CMem)
  (w : World) (a s : nat) (v vs : Surface) (rect rect' color : Z) :
  GlobalMutex w = false ->
  heap w !! a = Some v ->
  cSurface v = NULL ->
  mutex v = mkRWMutex false 0 ->
  heap w !! s = Some vs ->
  a <> s ->
  writer (mutex vs) = false ->
  (* a handle that was never created *)
  FillRect native None rect color w = Panic nil_dereference w /\
  Lock native None w = Panic nil_dereference w /\
  (exists w',
      Blit native (Some s) rect None rect' w = Panic nil_dereference w' /\
      calls (trace w') = calls (trace w)) /\
  (exists w',
      Blit native None rect (Some s) rect' w = Panic nil_dereference w' /\
      calls (trace w') = calls (trace w)) /\
  (* a destroyed handle *)
  (let c := SDL_FillRect NULL rect (to_uint32 color) in
   exists w',
     FillRect native (Some a) rect color w
     = Ok (fst (native c (cmem w))) w' /\
     trace w' = trace w ++ [Lock_ a; Call c; Unlock_ a]) /\
  (let c := SDL_LockSurface NULL in
   exists w',
     Lock native (Some a) w = Ok (fst (native c (cmem w))) w' /\
     trace w' = trace w ++ [Lock_ a; Call c; Unlock_ a]) /\
  (let c := SDL_UpperBlit (cSurface vs) rect' NULL rect in
   exists w',
     Blit native (Some a) rect (Some s) rect' w
     = Ok (fst (native c (cmem w))) w' /\
     calls (trace w') = calls (trace w) ++ [c]).
Proof.
  intros Hg Hv Hc Hm Hs Hne Hms.
  split; [reflexivity|]. split; [reflexivity|].
  split; [apply Blit_nil_src; assumption|].
  split; [apply (Blit_nil_dst native w s vs); assumption|].
  split; [|split].
  - intros c. eexists. split.
    + subst c. rewrite <- Hc.
      apply (FillRect_run native w a v rect color Hv Hm).
    + simpl. rewrite Hc. reflexivity.
  - intros c. eexists. split.
    + subst c. rewrite <- Hc. apply (Lock_run native w a v Hv Hm).
    + simpl. rewrite Hc. reflexivity.
  - intros c. eexists. split.
    + subst c. rewrite <- Hc.
      apply (Blit_run native w a s v vs rect rect'); assumption.
    + simpl. rewrite calls_app. f_equal.
      destruct (negb _); simpl; rewrite Hc; reflexivity.
Qed.

Lemma nil_handle_panics_destroyed_handle_reaches_C_witness :
  FillRect stub None 0 255 destroyed_world
  = Panic nil_dereference destroyed_world /\
  Lock stub None destroyed_world = Panic nil_dereference destroyed_world /\
  (exists w',
      Blit stub (Some 1%nat) 0 None 0 destroyed_world
      = Panic nil_dereference w' /\
      calls (trace w') = calls (trace destroyed_world)) /\
  (exists w',
      Blit stub None 0 (Some 1%nat) 0 destroyed_world
      = Panic nil_dereference w' /\
      calls (trace w') = calls (trace destroyed_world)) /\
  (let c := SDL_FillRect NULL 0 (to_uint32 255) in
   exists w',
     FillRect stub (Some 0%nat) 0 255 destroyed_world
     = Ok (fst (stub c (cmem destroyed_world))) w' /\
     trace w' = trace destroyed_world ++ [Lock_ 0; Call c; Unlock_ 0]) /\
  (let c := SDL_LockSurface NULL in
   exists w',
     Lock stub (Some 0%nat) destroyed_world
     = Ok (fst (stub c (cmem destroyed_world))) w' /\
     trace w' = trace destroyed_world ++ [Lock_ 0; Call c; Unlock_ 0]) /\
  (let c := SDL_UpperBlit (cSurface sprite) 0 NULL 0 in
   exists w',
     Blit stub (Some 0%nat) 0 (Some 1%nat) 0 destroyed_world
     = Ok (fst (stub c (cmem destroyed_world))) w' /\
     calls (trace w') = calls (trace destroyed_world) ++ [c]).
Proof.
  apply (nil_handle_panics_destroyed_handle_reaches_C stub destroyed_world
           0 1 (destroyed screen) sprite 0 0 255).
  - reflexivity.
  - reflexivity.
  - reflexivity.
  - reflexivity.
  - reflexivity.
  - discriminate.
  - reflexivity.
Defined.

(** C3 as stated fails: [FillRect] on the destroyed handle of
    [destroyed_world] does not fail; it calls [SDL_FillRect] with a NULL
    surface and returns the -1 the C function answers. *)
Lemma FillRect_destroyed_calls_C :
  (exists v, heap destroyed_world !! 0%nat = Some v /\ cSurface v = NULL) /\
  exists w',
    FillRect stub (Some 0%nat) 0 255 destroyed_world = Ok (-1) w' /\
    trace w' = [Lock_ 0; Call (SDL_FillRect NULL 0 255); Unlock_ 0] /\
    Call (SDL_FillRect NULL 0 255) ∈ trace w'.
Proof.
  split; [eexists; split; reflexivity|].
  eexists. split.
  { apply (FillRect_run stub destroyed_world 0 (destroyed screen) 0 255);
      reflexivity. }
  simpl. split; [reflexivity|].
  apply list_elem_of_further, list_elem_of_here.
Qed.

(** ** [ListModes] *)

Section ListModes.

Variable ptr_size : Z.
Hypothesis ptr_size_ge_2 : 2 <= ptr_size.

Local Abbreviation B := (2 ^ word_bits ptr_size).
Local Abbreviation half := (2 ^ (word_bits ptr_size - 1)).

Lemma word_split : B = 2 * half.
Proof.
  unfold word_bits.
  replace (8 * ptr_size) with (Z.succ (8 * ptr_size - 1)) at 1 by lia.
  apply Z.pow_succ_r. lia.
Qed.

Lemma half_pos : 0 < half.
Proof. unfold word_bits. apply Z.pow_pos_nonneg; lia. Qed.

Lemma to_int_small (z : Z) :
  - half <= z < half -> to_int ptr_size z = z.
Proof.
  intros Hz. unfold to_int.
  pose proof word_split. rewrite Z.mod_small; lia.
Qed.

Lemma to_uintptr_to_int (z : Z) :
  to_uintptr ptr_size (to_int ptr_size z) = z mod B.
Proof.
  unfold to_uintptr, to_int.
  rewrite Zminus_mod_idemp_l. f_equal. lia.
Qed.

Lemma entry_address_small (modes i : Z) :
  0 <= modes -> 0 <= i * ptr_size -> modes + i * ptr_size < B ->
  entry_address ptr_size modes i = modes + i * ptr_size.
Proof.
  intros Hm Hi Hlt. unfold entry_address.
  rewrite to_uintptr_to_int. unfold to_uintptr.
  rewrite <- Zplus_mod. apply Z.mod_small. lia.
Qed.

Variable m : CMem.
Variable modes : Z.
Variable entries : list (Z * SDL_Rect.t).
Hypothesis array : mode_array ptr_size m modes entries.

Local Abbreviation N := (length entries).

Lemma array_fits (k : nat) :
  (k <= N)%nat ->
  0 <= Z.of_nat k * ptr_size /\
  modes + Z.of_nat k * ptr_size < B /\
  Z.of_nat k + 1 < half.
Proof.
  intros Hk. destruct array as (Hpos & Hfit & _ & _).
  pose proof word_split.
  assert (Z.of_nat k <= Z.of_nat N) by lia.
  split; [nia|]. split; nia.
Qed.

Lemma cell_defined (k : nat) :
  (k <= N)%nat ->
  exists p, cells m !! (modes + Z.of_nat k * ptr_size) = Some p.
Proof.
  intros Hk. destruct array as (_ & _ & Hentry & Hend).
  destruct (decide (k = N)) as [-> | Hne]; [eauto|].
  destruct (lookup_lt_is_Some_2 entries k) as [[p r] Hkr]; [lia|].
  destruct (Hentry k p r Hkr) as (_ & Hcell & _). eauto.
Qed.

Lemma read_entry (k : nat) (p : Z) (w : World) :
  (k <= N)%nat ->
  cmem w = m ->
  cells m !! (modes + Z.of_nat k * ptr_size) = Some p ->
  read_cell (entry_address ptr_size modes (Z.of_nat k)) w = Ok p w.
Proof.
  intros Hk Hw Hp. destruct (array_fits k Hk) as (H1 & H2 & _).
  destruct array as (Hpos & _).
  unfold read_cell. rewrite entry_address_small by lia.
  rewrite Hw, Hp. reflexivity.
Qed.

(** The counting loop stops at the NULL cell, having counted the entries;
    a step of fuel for each entry is enough. *)
Lemma count_modes_run (w : World) (n : nat) :
  cmem w = m ->
  forall (k fuel : nat) (p : Z),
    (k + n = N)%nat ->
    (n <= fuel)%nat ->
    cells m !! (modes + Z.of_nat k * ptr_size) = Some p ->
    count_modes ptr_size fuel modes (Z.of_nat k) p w = Ok (Z.of_nat N) w.
Proof.
  intros Hw. induction n as [|n IH]; intros k fuel p Hk Hfuel Hp.
  - assert (k = N) as -> by lia.
    destruct array as (_ & _ & _ & Hend).
    assert (p = NULL) as -> by congruence.
    destruct fuel; reflexivity.
  - destruct (lookup_lt_is_Some_2 entries k) as [[q r] Hkr]; [lia|].
    destruct array as (_ & _ & Hentry & _).
    destruct (Hentry k q r Hkr) as (Hq & Hcell & _).
    assert (p = q) as -> by congruence.
    destruct fuel as [|fuel]; [lia|]. simpl.
    destruct (Z.eqb_spec q NULL) as [|_]; [contradiction|].
    destruct (array_fits (S k)) as (_ & _ & Hhalf); [lia|].
    rewrite to_int_small by lia.
    replace (Z.of_nat k + 1) with (Z.of_nat (S k)) by lia.
    destruct (cell_defined (S k)) as [p' Hp']; [lia|].
    unfold mbind, M_bind.
    rewrite (read_entry (S k) p' w) by (assumption || lia).
    apply IH; [lia | lia | assumption].
Qed.

(** The copying loop yields the rectangles of the entries from [k] on, in
    the order of the array. *)
Lemma copy_modes_run (w : World) (n : nat) :
  cmem w = m ->
  forall k : nat,
    (k + n = N)%nat ->
    copy_modes ptr_size n modes (Z.of_nat k) w
    = Ok (map (fun e => Rect_of (snd e)) (drop k entries)) w.
Proof.
  intros Hw. induction n as [|n IH]; intros k Hk.
  - rewrite drop_ge by lia. reflexivity.
  - destruct (lookup_lt_is_Some_2 entries k) as [[q r] Hkr]; [lia|].
    destruct array as (_ & _ & Hentry & _).
    destruct (Hentry k q r Hkr) as (Hq & Hcell & Hrect & Hx & Hy & Hw' & Hh).
    rewrite (drop_S entries (q, r) k Hkr). simpl.
    unfold mbind, M_bind.
    rewrite (read_entry k q w) by (assumption || lia).
    unfold read_rect. destruct (Z.eqb_spec q NULL) as [|_]; [contradiction|].
    rewrite Hw, Hrect.
    destruct (array_fits (S k)) as (_ & _ & Hhalf); [lia|].
    rewrite to_int_small by lia.
    replace (Z.of_nat k + 1) with (Z.of_nat (S k)) by lia.
    rewrite IH by lia. unfold mret, M_ret, Rect_of. simpl.
    rewrite !to_int16_id, !to_uint16_id by assumption. reflexivity.
Qed.

Lemma mode_array_not_special :
  (modes =? NULL) = false /\
  (to_uintptr ptr_size (to_uintptr ptr_size modes + 1) =? 0) = false.
Proof.
  destruct (array_fits 0) as (_ & H2 & _); [lia|].
  destruct array as (Hpos & Hfit & _).
  split; [apply Z.eqb_neq; unfold NULL; lia|].
  apply Z.eqb_neq. unfold to_uintptr.
  rewrite (Z.mod_small modes) by lia.
  rewrite Z.mod_small; lia.
Qed.

End ListModes.

(** C4: [ListModes] decodes the three answers of [SDL_ListModes].  NULL
    gives an empty, non-nil slice; the wildcard -1 gives the nil slice, a
    different value; an array of N non-null rectangle pointers closed by a
    NULL gives a slice of exactly N rectangles with the x, y, w and h of the
    records, in the order of the array, as soon as the counting loop is
    granted N steps. *)
Theorem ListModes_decodes
  (native : native_call -> CMem -> Z * CMem) (ptr_size : Z)
  (fuel : nat) (format flags : Z) (w : World) :
  2 <= ptr_size ->
  let c := SDL_ListModes format (to_uint32 flags) in
  let modes := fst (native c (cmem w)) in
  let m := snd (native c (cmem w)) in
  let w' := mkWorld (heap w) m (currentVideoSurface w) (GlobalMutex w)
              (trace w ++ [Call c]) in
  (modes = NULL ->
   ListModes native ptr_size fuel format flags w = Ok (make_slice []) w') /\
  (modes = wildcard ptr_size ->
   ListModes native ptr_size fuel format flags w = Ok nil_slice w') /\
  @nil_slice Rect.t <> make_slice [] /\
  (forall entries : list (Z * SDL_Rect.t),
      mode_array ptr_size m modes entries ->
      (length entries <= fuel)%nat ->
      ListModes native ptr_size fuel format flags w
      = Ok (make_slice (map (fun e => Rect_of (snd e)) entries)) w' /\
      len (make_slice (map (fun e => Rect_of (snd e)) entries))
      = length entries).
Proof.
  intros Hps c modes m w'.
  assert (Hrun : ListModes native ptr_size fuel format flags w
                 = (fun modes : Z =>
                      if modes =? NULL then mret (make_slice [])
                      else if to_uintptr ptr_size
                                (to_uintptr ptr_size modes + 1) =? 0
                      then mret nil_slice
                      else
                        p ← read_cell modes;
                        count ← count_modes ptr_size fuel modes 0 p;
                        if count <? 0
                        then panic "runtime error: makeslice: len out of range"
                        else
                          ret ← copy_modes ptr_size (Z.to_nat count) modes 0;
                          mret (make_slice ret)) modes w').
  { unfold ListModes, call. unfold mbind at 1. unfold M_bind. fold c.
    subst modes m w'. destruct (native c (cmem w)); reflexivity. }
  rewrite Hrun. clear Hrun.
  split; [|split; [|split]].
  - intros ->. reflexivity.
  - intros ->. unfold wildcard. simpl.
    assert (1 < 2 ^ word_bits ptr_size).
    { unfold word_bits. apply Z.pow_gt_1; lia. }
    destruct (Z.eqb_spec (2 ^ word_bits ptr_size - 1) NULL) as [E|_];
      [unfold NULL in E; lia|].
    unfold to_uintptr.
    rewrite (Z.mod_small (2 ^ word_bits ptr_size - 1)) by lia.
    replace (2 ^ word_bits ptr_size - 1 + 1)
      with (2 ^ word_bits ptr_size) by lia.
    rewrite Z.mod_same by lia. reflexivity.
  - discriminate.
  - intros entries Harr Hfuel. split; [|apply length_map].
    destruct (mode_array_not_special ptr_size Hps m modes entries Harr)
      as [-> ->].
    assert (Hw' : cmem w' = m) by reflexivity.
    destruct (cell_defined ptr_size m modes entries Harr 0) as [p Hp];
      [lia|].
    pose proof (read_entry ptr_size Hps m modes entries Harr 0 p w'
                  ltac:(lia) Hw' Hp) as Hread.
    rewrite entry_address_small in Hread; try lia.
    + simpl in Hp. rewrite Z.add_0_r in Hread.
      unfold mbind, M_bind. rewrite Hread.
      rewrite Z.add_0_r in Hp.
      pose proof (count_modes_run ptr_size Hps m modes entries Harr w'
                    (length entries) Hw' 0 fuel p) as Hcount.
      change (Z.of_nat 0) with 0 in Hcount.
      rewrite Hcount; [|lia|lia|simpl; now rewrite Z.add_0_r].
      destruct (Z.ltb_spec (Z.of_nat (length entries)) 0) as [|_]; [lia|].
      rewrite Nat2Z.id.
      pose proof (copy_modes_run ptr_size Hps m modes entries Harr w'
                    (length entries) Hw' 0) as Hcopy.
      change (Z.of_nat 0) with 0 in Hcopy.
      rewrite Hcopy by lia.
      reflexivity.
    + destruct Harr as (Hpos & _). lia.
    + destruct (array_fits ptr_size Hps m modes entries Harr 0) as (_ & H2 & _);
        [lia|]. simpl in H2. lia.
Qed.

Lemma stub_mode_array : mode_array 8 stub_mem 1000 stub_modes.
Proof.
  unfold mode_array. split; [lia|]. split; [vm_compute; discriminate|].
  split; [|reflexivity].
  intros [|[|i]] p r; simpl; intros E; try discriminate E;
    injection E as <- <-;
    (split; [discriminate|]); (split; [reflexivity|]);
    (split; [reflexivity|]);
    unfold SDL_Rect.well_typed, is_int16, is_uint16; simpl; lia.
Qed.

Lemma ListModes_decodes_witness :
  ListModes stub 8 2 64 1 empty_world
  = Ok (make_slice [])
      (mkWorld ∅ stub_mem None false [Call (SDL_ListModes 64 1)]) /\
  ListModes stub 8 2 64 2 empty_world
  = Ok nil_slice
      (mkWorld ∅ stub_mem None false [Call (SDL_ListModes 64 2)]) /\
  ListModes stub 8 2 64 0 empty_world
  = Ok (make_slice [Rect.mk 0 0 640 480; Rect.mk 0 0 320 240])
      (mkWorld ∅ stub_mem None false [Call (SDL_ListModes 64 0)]).
Proof.
  split; [|split].
  - apply (ListModes_decodes stub 8 2 64 1 empty_world); [lia | reflexivity].
  - apply (ListModes_decodes stub 8 2 64 2 empty_world); [lia | reflexivity].
  - destruct (ListModes_decodes stub 8 2 64 0 empty_world)
      as (_ & _ & _ & Harray); [lia|].
    destruct (Harray stub_modes stub_mode_array) as [Hrun _];
      [simpl; lia|].
    exact Hrun.
Defined.

(** * Further properties *)

(** ** Teardown: [Quit] and a repeated [Free] *)

Lemma Quit_run_none (native : native_call -> CMem -> Z * CMem) (w : World) :
  GlobalMutex w = false ->
  currentVideoSurface w = None ->
  Quit native w
  = Ok tt (mkWorld (heap w) (snd (native SDL_Quit (cmem w))) None false
             (trace w ++ [GlobalLock; Call SDL_Quit; GlobalUnlock])).
Proof.
  intros Hg Hc. destruct w as [hp cm cvs gm tr]; simpl in *; subst gm cvs.
  unfold Quit. go. destruct (native SDL_Quit cm) as [r m]. go.
  rewrite <- !app_assoc. reflexivity.
Qed.




(** X2: a second [Free] of the same handle hands NULL to
    [SDL_FreeSurface], not the pointer already freed, and changes neither
    the heap nor the current video surface. *)
Theorem Free_twice_frees_NULL
  (native : native_call -> CMem -> Z * CMem)
  (w : World) (a : nat) (v : Surface) :
  heap w !! a = Some v ->
  GlobalMutex w = false ->
  mutex v = mkRWMutex false 0 ->
  exists w1 w2,
    Free native (Some a) w = Ok tt w1 /\
    Free native (Some a) w1 = Ok tt w2 /\
    heap w2 = heap w1 /\
    currentVideoSurface w2 = currentVideoSurface w1 /\
    trace w1 = trace w ++ [GlobalLock; Lock_ a;
                           Call (SDL_FreeSurface (cSurface v));
                           Unlock_ a; GlobalUnlock] /\
    trace w2 = trace w1 ++ [GlobalLock; Lock_ a;
                            Call (SDL_FreeSurface NULL);
                            Unlock_ a; GlobalUnlock].
Proof.
  intros Hv Hg Hm. eexists; eexists.
  split; [apply (Free_run native w a v Hv Hg Hm)|].
  split.
  - apply (Free_run native _ a (destroyed v));
      [simpl; apply lookup_insert_eq | reflexivity | exact Hm].
  - simpl. split; [unfold destroyed; simpl; now rewrite insert_insert_eq|].
    split; [|split; reflexivity].
    destruct (decide (Some a = currentVideoSurface w)) as [E|E].
    + destruct (decide (Some a = None)); reflexivity.
    + destruct (decide (Some a = currentVideoSurface w)); congruence.
Qed.

Lemma Free_twice_frees_NULL_witness :
  exists w1 w2,
    Free stub (Some 0%nat) onscreen_world = Ok tt w1 /\
    Free stub (Some 0%nat) w1 = Ok tt w2 /\
    heap w2 = heap w1 /\
    currentVideoSurface w2 = currentVideoSurface w1 /\
    trace w1 = trace onscreen_world
               ++ [GlobalLock; Lock_ 0; Call (SDL_FreeSurface 4096);
                   Unlock_ 0; GlobalUnlock] /\
    trace w2 = trace w1 ++ [GlobalLock; Lock_ 0;
                            Call (SDL_FreeSurface NULL);
                            Unlock_ 0; GlobalUnlock].
Proof.
  apply (Free_twice_frees_NULL stub onscreen_world 0 screen); reflexivity.
Defined.

(** ** What an operation leaves alone *)

Lemma global_events_app (tr1 tr2 : list event) :
  global_events (tr1 ++ tr2) = global_events tr1 ++ global_events tr2.
Proof. unfold global_events. apply omap_app. Qed.

Lemma lock_events_app (tr1 tr2 : list event) :
  lock_events (tr1 ++ tr2) = lock_events tr1 ++ lock_events tr2.
Proof. unfold lock_events. apply omap_app. Qed.

Lemma global_untouched_refl (w : World) : global_untouched w w.
Proof. repeat split. Qed.

Lemma global_untouched_trans (w1 w2 w3 : World) :
  global_untouched w1 w2 -> global_untouched w2 w3 -> global_untouched w1 w3.
Proof.
  intros (H1 & H2 & H3) (H4 & H5 & H6). repeat split; congruence.
Qed.

Lemma preserves_bind {A B} (R : World -> World -> Prop)
  (m : M A) (f : A -> M B) :
  (forall w1 w2 w3, R w1 w2 -> R w2 w3 -> R w1 w3) ->
  preserves R m -> (forall a, preserves R (f a)) -> preserves R (m ≫= f).
Proof.
  intros Htrans Hm Hf w. unfold mbind, M_bind.
  specialize (Hm w). destruct (m w) as [a w1| | |]; simpl in *; auto.
  eapply Htrans; [exact Hm | apply Hf].
Qed.

Lemma preserves_ret {A} (R : World -> World -> Prop) (a : A) :
  (forall w, R w w) -> preserves R (mret a).
Proof. intros Hrefl w. apply Hrefl. Qed.

Ltac leaf_cases :=
  go;
  repeat (match goal with
          | |- context [@lookup _ _ (gmap _ _) _ ?k ?m] =>
              destruct (m !! k) as [?|] eqn:?
          | |- context [if ?b then _ else _] => destruct b eqn:?
          | |- context [match readers ?x with _ => _ end] =>
              destruct (readers x) eqn:?
          | |- context [match ?x with _ => _ end] => is_var x; destruct x
          end; go).

Ltac untouched_leaf :=
  intros [? ? ? ? ?]; leaf_cases;
  unfold global_untouched; simpl;
  rewrite ?global_events_app; simpl; rewrite ?app_nil_r; auto.

Lemma load_untouched (s : option nat) : preserves global_untouched (load s).
Proof. untouched_leaf. Qed.

Lemma mutex_Lock_untouched (s : option nat) :
  preserves global_untouched (mutex_Lock s).
Proof. destruct s; untouched_leaf. Qed.

Lemma mutex_Unlock_untouched (s : option nat) :
  preserves global_untouched (mutex_Unlock s).
Proof. destruct s; untouched_leaf. Qed.

Lemma mutex_RLock_untouched (s : option nat) :
  preserves global_untouched (mutex_RLock s).
Proof. destruct s; untouched_leaf. Qed.

Lemma mutex_RUnlock_untouched (s : option nat) :
  preserves global_untouched (mutex_RUnlock s).
Proof. destruct s; untouched_leaf. Qed.

Lemma call_untouched (native : native_call -> CMem -> Z * CMem)
  (c : native_call) : preserves global_untouched (call native c).
Proof.
  intros [hp cm cvs gm tr]. unfold call. simpl.
  destruct (native c cm) as [r m]. unfold global_untouched. simpl.
  rewrite global_events_app. simpl. now rewrite app_nil_r.
Qed.

Lemma wrap_untouched (c : Z) : preserves global_untouched (wrap c).
Proof.
  unfold wrap, SetCSurface, reload.
  destruct (c =? NULL); [apply preserves_ret, global_untouched_refl|].
  untouched_leaf.
Qed.

Ltac untouched :=
  repeat first
    [ apply preserves_ret, global_untouched_refl
    | apply load_untouched
    | apply mutex_Lock_untouched
    | apply mutex_Unlock_untouched
    | apply mutex_RLock_untouched
    | apply mutex_RUnlock_untouched
    | apply call_untouched
    | apply wrap_untouched
    | apply preserves_bind; [apply global_untouched_trans| |intros ?] ].

(** X3: the operations on one surface ([FillRect], [Lock], [Unlock],
    [DisplayFormat], [DisplayFormatAlpha], [Zoom]) never lock or unlock the
    global mutex and never change the current video surface, on any input
    and however they end. *)
Theorem surface_operations_leave_global_mutex
  (native : native_call -> CMem -> Z * CMem)
  (s : option nat) (rect color zoomX zoomY : Z) (smooth : bool) :
  preserves global_untouched (FillRect native s rect color) /\
  preserves global_untouched (Lock native s) /\
  preserves global_untouched (Unlock native s) /\
  preserves global_untouched (DisplayFormat native s) /\
  preserves global_untouched (DisplayFormatAlpha native s) /\
  preserves global_untouched (Zoom native s zoomX zoomY smooth).
Proof.
  unfold FillRect, Lock, Unlock, DisplayFormat, DisplayFormatAlpha, Zoom.
  do 5 (split; [untouched|]). untouched.
Qed.

(** ** [ListModes] and [Zoom] take no lock *)

Lemma read_cell_world (a : Z) (w : World) : world_of (read_cell a w) = w.
Proof. unfold read_cell. destruct (cells (cmem w) !! a); reflexivity. Qed.

Lemma read_rect_world (a : Z) (w : World) : world_of (read_rect a w) = w.
Proof.
  unfold read_rect. destruct (a =? NULL); [reflexivity|].
  destruct (rects (cmem w) !! a); reflexivity.
Qed.

Lemma bind_world_fixed {A B} (m : M A) (f : A -> M B) (w : World) :
  world_of (m w) = w ->
  (forall a, world_of (f a w) = w) ->
  world_of ((m ≫= f) w) = w.
Proof.
  intros Hm Hf. unfold mbind, M_bind.
  destruct (m w) as [a w1| | |]; simpl in *; subst; auto.
Qed.

Lemma count_modes_world (ptr_size : Z) (fuel : nat) (modes : Z) (w : World) :
  forall count p : Z,
    world_of (count_modes ptr_size fuel modes count p w) = w.
Proof.
  induction fuel as [|fuel IH]; intros count p; simpl;
    destruct (p =? NULL); try reflexivity.
  apply bind_world_fixed; [apply read_cell_world|]. intros p'. apply IH.
Qed.

Lemma copy_modes_world (ptr_size : Z) (n : nat) (modes : Z) (w : World) :
  forall i : Z, world_of (copy_modes ptr_size n modes i w) = w.
Proof.
  induction n as [|n IH]; intros i; simpl; [reflexivity|].
  apply bind_world_fixed; [apply read_cell_world|]. intros r.
  apply bind_world_fixed; [apply read_rect_world|]. intros c.
  apply bind_world_fixed; [apply IH|]. reflexivity.
Qed.

(** X4: whatever [SDL_ListModes] answers and however the decoding ends,
    [ListModes] has made that one C call and nothing else: it takes no lock
    (so it runs while the global mutex is held), and it changes neither the
    heap nor the current video surface. *)
Theorem ListModes_one_call_no_lock
  (native : native_call -> CMem -> Z * CMem) (ptr_size : Z)
  (fuel : nat) (format flags : Z) (w : World) :
  let c := SDL_ListModes format (to_uint32 flags) in
  world_of (ListModes native ptr_size fuel format flags w)
  = mkWorld (heap w) (snd (native c (cmem w))) (currentVideoSurface w)
      (GlobalMutex w) (trace w ++ [Call c]).
Proof.
  intros c. unfold ListModes, call. unfold mbind at 1. unfold M_bind.
  fold c. destruct (native c (cmem w)) as [modes m]. simpl.
  destruct (modes =? NULL); [reflexivity|].
  destruct (to_uintptr ptr_size (to_uintptr ptr_size modes + 1) =? 0);
    [reflexivity|].
  apply bind_world_fixed; [apply read_cell_world|]. intros p.
  apply bind_world_fixed; [apply count_modes_world|]. intros count.
  destruct (count <? 0); [reflexivity|].
  apply bind_world_fixed; [apply copy_modes_world|]. reflexivity.
Qed.

Lemma wrap_trace (c : Z) (w : World) : trace (world_of (wrap c w)) = trace w.
Proof.
  revert w. unfold wrap, SetCSurface, reload.
  destruct (c =? NULL); [reflexivity|].
  intros [? ? ? ? ?]; leaf_cases; reflexivity.
Qed.

(** X5: [Zoom] reads the surface's C pointer and calls [zoomSurface]
    without taking the surface's mutex: its only event is the C call, even
    while the mutex is held exclusively, a state in which [DisplayFormat]
    and [FillRect] wait. *)
Theorem Zoom_takes_no_lock
  (native : native_call -> CMem -> Z * CMem)
  (w : World) (a : nat) (v : Surface)
  (zoomX zoomY rect color : Z) (smooth : bool) :
  heap w !! a = Some v ->
  trace (world_of (Zoom native (Some a) zoomX zoomY smooth w))
  = trace w ++ [Call (zoomSurface (cSurface v) zoomX zoomY
                        (if smooth then 1 else 0))] /\
  (writer (mutex v) = true ->
   DisplayFormat native (Some a) w = Blocked w /\
   FillRect native (Some a) rect color w = Blocked w).
Proof.
  intros Hv. split.
  - unfold Zoom. unfold mbind at 1. unfold M_bind, load. rewrite Hv.
    unfold mbind, M_bind, call.
    destruct (native _ (cmem w)) as [p m].
    rewrite wrap_trace. reflexivity.
  - intros Hwr. destruct w as [hp cm cvs gm tr]; simpl in *.
    unfold DisplayFormat, FillRect. go. rewrite Hwr. split; reflexivity.
Qed.

Lemma Zoom_takes_no_lock_witness :
  trace (world_of (Zoom stub (Some 0%nat) 2 2 true
                     (mkWorld (<[0%nat := set_mutex (mkRWMutex true 0)
                                            screen]> ∅)
                        stub_mem None false [])))
  = [Call (zoomSurface 4096 2 2 1)] /\
  (true = true ->
   DisplayFormat stub (Some 0%nat)
     (mkWorld (<[0%nat := set_mutex (mkRWMutex true 0) screen]> ∅)
        stub_mem None false [])
   = Blocked
       (mkWorld (<[0%nat := set_mutex (mkRWMutex true 0) screen]> ∅)
          stub_mem None false []) /\
   FillRect stub (Some 0%nat) 0 255
     (mkWorld (<[0%nat := set_mutex (mkRWMutex true 0) screen]> ∅)
        stub_mem None false [])
   = Blocked
       (mkWorld (<[0%nat := set_mutex (mkRWMutex true 0) screen]> ∅)
          stub_mem None false [])).
Proof.
  apply (Zoom_takes_no_lock stub
           (mkWorld (<[0%nat := set_mutex (mkRWMutex true 0) screen]> ∅)
              stub_mem None false [])
           0 (set_mutex (mkRWMutex true 0) screen) 2 2 0 255 true).
  reflexivity.
Defined.

(** ** A nil handle and the locks already taken *)

(** X6: [Free] on a nil handle panics after it has locked the global
    mutex, and leaves it locked: [GetVideoSurface] then waits.  [Blit] with
    a nil destination panics after it has taken the source's read lock, and
    leaves that lock held; it also leaves the global mutex locked when no
    video surface is set, because the nil destination then equals the
    current video surface. *)
Theorem nil_handle_leaves_locks_held
  (native : native_call -> CMem -> Z * CMem)
  (w : World) (s : nat) (vs : Surface) (rect rect' : Z) :
  GlobalMutex w = false ->
  heap w !! s = Some vs ->
  writer (mutex vs) = false ->
  (exists w',
      Free native None w = Panic nil_dereference w' /\
      GlobalMutex w' = true /\
      GetVideoSurface w' = Blocked w') /\
  (exists w' vs',
      Blit native None rect (Some s) rect' w = Panic nil_dereference w' /\
      heap w' !! s = Some vs' /\
      readers (mutex vs') = S (readers (mutex vs)) /\
      GlobalMutex w'
      = bool_decide (currentVideoSurface w = None \/
                     currentVideoSurface w = Some s)).
Proof.
  intros Hg Hs Hm. destruct w as [hp cm cvs gm tr]; simpl in *; subst gm.
  destruct vs as [cs [wrs rds] fls fos wds hts pis pxs offs gcs].
  simpl in *; subst wrs. split.
  - eexists. unfold Free. go. split; [reflexivity|]. split; reflexivity.
  - unfold Blit. go.
    destruct cvs as [x|].
    + destruct (decide (x = s)) as [->|Hne].
      * rewrite (bool_decide_eq_false_2 (Some s <> Some s)) by tauto. go.
        eexists; eexists. split; [reflexivity|]. simpl.
        rewrite lookup_insert_eq. split; [reflexivity|].
        split; [reflexivity|].
        symmetry. apply bool_decide_eq_true_2. now right.
      * rewrite !bool_decide_eq_true_2 by congruence. go.
        eexists; eexists. split; [reflexivity|]. simpl.
        rewrite lookup_insert_eq. split; [reflexivity|].
        split; [reflexivity|].
        symmetry. apply bool_decide_eq_false_2. intros [E|E]; congruence.
    + rewrite (bool_decide_eq_true_2 (Some s <> None)) by congruence.
      rewrite (bool_decide_eq_false_2 (None <> None)) by tauto. go.
      eexists; eexists. split; [reflexivity|]. simpl.
      rewrite lookup_insert_eq. split; [reflexivity|].
      split; reflexivity.
Qed.

Lemma nil_handle_leaves_locks_held_witness :
  (exists w',
      Free stub None offscreen_world = Panic nil_dereference w' /\
      GlobalMutex w' = true /\
      GetVideoSurface w' = Blocked w') /\
  (exists w' vs',
      Blit stub None 0 (Some 1%nat) 0 offscreen_world
      = Panic nil_dereference w' /\
      heap w' !! 1%nat = Some vs' /\
      readers (mutex vs') = S (readers (mutex sprite)) /\
      GlobalMutex w' = true).
Proof.
  apply (nil_handle_leaves_locks_held stub offscreen_world 1 sprite 0 0);
    reflexivity.
Defined.

(** ** When an operation returns *)

Lemma Unlock_run (native : native_call -> CMem -> Z * CMem)
  (w : World) (a : nat) (v : Surface) :
  heap w !! a = Some v ->
  mutex v = mkRWMutex false 0 ->
  let c := SDL_UnlockSurface (cSurface v) in
  Unlock native (Some a) w
  = Ok tt
      (mkWorld (heap w) (snd (native c (cmem w))) (currentVideoSurface w)
         (GlobalMutex w) (trace w ++ [Lock_ a; Call c; Unlock_ a])).
Proof.
  intros Hv Hm c. destruct w as [hp cm cvs gm tr]; simpl in *.
  destruct v as [cs mu fl fo wd ht pi px off gc]; simpl in *; subst mu.
  unfold Unlock. go. fold c. destruct (native c cm) as [r m]. go.
  rewrite !insert_insert_eq, <- !app_assoc, (insert_id hp a) by assumption.
  reflexivity.
Qed.

(** Code that starts by locking a surface exclusively returns only on a
    live handle whose mutex is free. *)
Lemma mutex_Lock_bind_Ok {B} (s : option nat) (f : unit -> M B)
  (w : World) (r : B) (w' : World) :
  (mutex_Lock s ≫= f) w = Ok r w' ->
  exists a v,
    s = Some a /\ heap w !! a = Some v /\ mutex v = mkRWMutex false 0.
Proof.
  destruct w as [hp cm cvs gm tr]. destruct s as [a|]; [|go; discriminate].
  go. destruct (hp !! a) as [v|] eqn:Hv; [|go; discriminate].
  destruct v as [cs [wr rd] fl fo wd ht pi px off gc]. go.
  destruct wr; [discriminate|]. destruct rd; [|discriminate].
  intros _. eauto.
Qed.

(** Code that starts by locking the global mutex returns only if it was
    free. *)
Lemma GlobalMutex_Lock_bind_Ok {B} (f : unit -> M B)
  (w : World) (r : B) (w' : World) :
  (GlobalMutex_Lock ≫= f) w = Ok r w' ->
  GlobalMutex w = false /\
  f tt (mkWorld (heap w) (cmem w) (currentVideoSurface w) true
          (trace w ++ [GlobalLock])) = Ok r w'.
Proof.
  destruct w as [hp cm cvs gm tr]. go.
  destruct gm; [discriminate|]. go. auto.
Qed.

Lemma Free_Ok_inv (native : native_call -> CMem -> Z * CMem)
  (s : option nat) (w w' : World) :
  Free native s w = Ok tt w' ->
  GlobalMutex w = false /\
  exists a v,
    s = Some a /\ heap w !! a = Some v /\ mutex v = mkRWMutex false 0.
Proof.
  unfold Free. intros Hok.
  apply GlobalMutex_Lock_bind_Ok in Hok as [Hg Hok]. split; [exact Hg|].
  apply mutex_Lock_bind_Ok in Hok. exact Hok.
Qed.

Lemma Blit_Ok_inv (native : native_call -> CMem -> Z * CMem)
  (dst : option nat) (dstrect : Z) (src : option nat) (srcrect : Z)
  (w : World) (r : Z) (w' : World) :
  Blit native dst dstrect src srcrect w = Ok r w' ->
  GlobalMutex w = false /\
  exists d s vd vs,
    dst = Some d /\ src = Some s /\ d <> s /\
    heap w !! d = Some vd /\ heap w !! s = Some vs /\
    mutex vd = mkRWMutex false 0 /\ writer (mutex vs) = false.
Proof.
  unfold Blit. intros Hok.
  apply GlobalMutex_Lock_bind_Ok in Hok as [Hg Hok]. split; [exact Hg|].
  destruct w as [hp cm cvs gm tr]; simpl in *. revert Hok.
  destruct src as [s|];
    [|go; destruct (bool_decide _ && bool_decide _); go; discriminate].
  destruct (hp !! s) as [vs|] eqn:Hs;
    [|go; destruct (bool_decide _ && bool_decide _); go; discriminate].
  destruct vs as [cs [wrs rds] fls fos wds hts pis pxs offs gcs].
  destruct wrs;
    [go; destruct (bool_decide _ && bool_decide _); go; discriminate|].
  destruct dst as [d|];
    [|go; destruct (bool_decide _ && bool_decide _); go; discriminate].
  destruct (decide (d = s)) as [->|Hne];
    [go; destruct (bool_decide _ && bool_decide _); go; discriminate|].
  destruct (hp !! d) as [vd|] eqn:Hd;
    [|go; destruct (bool_decide _ && bool_decide _); go; discriminate].
  destruct vd as [cd [wrd rdd] fld fod wdd htd pid pxd offd gcd].
  destruct wrd;
    [go; destruct (bool_decide _ && bool_decide _); go; discriminate|].
  destruct rdd;
    [|go; destruct (bool_decide _ && bool_decide _); go; discriminate].
  intros _. do 4 eexists. repeat split; eauto.
Qed.

Lemma locks_as_before_same_heap (w w' : World) :
  heap w' = heap w -> GlobalMutex w' = GlobalMutex w -> locks_as_before w w'.
Proof.
  intros Hh Hg. split; [exact Hg|]. intros a v Hv. rewrite Hh. eauto.
Qed.

(** X7: whenever [FillRect], [Lock], [Unlock], [Blit] or [Free] returns,
    the global mutex and the mutex of every surface are in the state the
    call found them in: no lock taken by the call is still held. *)
Theorem returning_operations_release_their_locks
  (native : native_call -> CMem -> Z * CMem)
  (s d : option nat) (rect rect' color : Z) (w : World) :
  (forall r w',
      FillRect native s rect color w = Ok r w' -> locks_as_before w w') /\
  (forall r w', Lock native s w = Ok r w' -> locks_as_before w w') /\
  (forall w', Unlock native s w = Ok tt w' -> locks_as_before w w') /\
  (forall r w',
      Blit native d rect s rect' w = Ok r w' -> locks_as_before w w') /\
  (forall w', Free native s w = Ok tt w' -> locks_as_before w w').
Proof.
  split; [|split; [|split; [|split]]].
  - intros r w' Hok. pose proof Hok as Hinv.
    apply mutex_Lock_bind_Ok in Hinv as (a & v & -> & Hv & Hm).
    rewrite (FillRect_run native w a v rect color Hv Hm) in Hok.
    injection Hok as _ <-. now apply locks_as_before_same_heap.
  - intros r w' Hok. pose proof Hok as Hinv.
    apply mutex_Lock_bind_Ok in Hinv as (a & v & -> & Hv & Hm).
    rewrite (Lock_run native w a v Hv Hm) in Hok.
    injection Hok as _ <-. now apply locks_as_before_same_heap.
  - intros w' Hok. pose proof Hok as Hinv.
    apply mutex_Lock_bind_Ok in Hinv as (a & v & -> & Hv & Hm).
    rewrite (Unlock_run native w a v Hv Hm) in Hok.
    injection Hok as <-. now apply locks_as_before_same_heap.
  - intros r w' Hok. pose proof Hok as Hinv.
    apply Blit_Ok_inv
      in Hinv as (Hg & d0 & s0 & vd & vs & -> & -> & Hne & Hd & Hs & Hmd & Hms).
    rewrite (Blit_run native w d0 s0 vd vs rect rect' Hg Hne Hd Hs Hmd Hms)
      in Hok.
    injection Hok as _ <-. apply locks_as_before_same_heap; simpl; auto.
  - intros w' Hok. pose proof Hok as Hinv.
    apply Free_Ok_inv in Hinv as (Hg & a & v & -> & Hv & Hm).
    rewrite (Free_run native w a v Hv Hg Hm) in Hok.
    injection Hok as <-. split; [simpl; auto|].
    intros b vb Hb. simpl.
    destruct (decide (a = b)) as [<-|Hne].
    + rewrite lookup_insert_eq. eexists. split; [reflexivity|].
      simpl. congruence.
    + rewrite lookup_insert_ne by congruence. eauto.
Qed.

Lemma returning_operations_release_their_locks_witness :
  locks_as_before offscreen_world
    (mkWorld (heap offscreen_world) stub_mem None false
       [Lock_ 0; Call (SDL_FillRect 4096 0 255); Unlock_ 0]) /\
  locks_as_before onscreen_world
    (mkWorld (<[0%nat := destroyed screen]> (heap onscreen_world)) stub_mem
       None false
       [GlobalLock; Lock_ 0; Call (SDL_FreeSurface 4096); Unlock_ 0;
        GlobalUnlock]).
Proof.
  split.
  - destruct (returning_operations_release_their_locks stub (Some 0%nat)
                None 0 0 255 offscreen_world) as (Hfill & _).
    apply (Hfill 0). vm_compute. reflexivity.
  - destruct (returning_operations_release_their_locks stub (Some 0%nat)
                None 0 0 255 onscreen_world) as (_ & _ & _ & _ & Hfree).
    apply Hfree. vm_compute. reflexivity.
Defined.

(** ** The current video surface is never a destroyed handle *)

Lemma wrap_Ok_inv (c : Z) (w : World) (s : option nat) (w' : World) :
  wrap c w = Ok s w' ->
  (c = NULL /\ s = None /\ w' = w) \/
  (c <> NULL /\
   exists cs,
     surfaces (cmem w) !! c = Some cs /\
     s = Some (fresh (dom (heap w))) /\
     w' = mkWorld (<[fresh (dom (heap w)) := wrapped c cs]> (heap w))
            (cmem w) (currentVideoSurface w) (GlobalMutex w) (trace w)).
Proof.
  intros Hok. destruct (Z.eq_dec c NULL) as [-> | Hc].
  - left. rewrite wrap_NULL in Hok. injection Hok as <- <-. auto.
  - right. split; [exact Hc|].
    destruct (surfaces (cmem w) !! c) as [cs|] eqn:Hcs.
    + rewrite (wrap_run c cs w Hc Hcs) in Hok. injection Hok as <- <-.
      eauto.
    + exfalso. revert Hok. destruct w as [hp cm cvs gm tr]; simpl in *.
      unfold wrap, SetCSurface, reload.
      destruct (Z.eqb_spec c NULL) as [|_]; [contradiction|].
      go. destruct (Z.eqb_spec c NULL) as [|_]; [contradiction|].
      go. discriminate.
Qed.

(** X8: the current video surface is nil or a live handle with a non-null
    C pointer, and stays so whenever [SetVideoMode], [Free] (of any
    surface), [Quit], [Blit] or [FillRect] returns: [Free] and [Quit] never
    leave a destroyed handle behind as the video surface. *)
Theorem video_surface_stays_live
  (native : native_call -> CMem -> Z * CMem)
  (s d : option nat) (wd ht bpp flags rect rect' color : Z) (w : World) :
  video_surface_live w ->
  (forall r w',
      SetVideoMode native wd ht bpp flags w = Ok r w' ->
      video_surface_live w') /\
  (forall w', Free native s w = Ok tt w' -> video_surface_live w') /\
  (forall w', Quit native w = Ok tt w' -> video_surface_live w') /\
  (forall r w',
      Blit native d rect s rect' w = Ok r w' -> video_surface_live w') /\
  (forall r w',
      FillRect native s rect color w = Ok r w' -> video_surface_live w').
Proof.
  intros Hlive. split; [|split; [|split; [|split]]].
  - intros r w' Hok. unfold SetVideoMode in Hok.
    apply GlobalMutex_Lock_bind_Ok in Hok as [Hg Hok].
    revert Hok. unfold mbind at 1. unfold M_bind, call. simpl.
    destruct (native _ (cmem w)) as [p m]. unfold mbind at 1. unfold M_bind.
    destruct (wrap p _) as [h w1| | |] eqn:Hwrap; try discriminate.
    apply wrap_Ok_inv in Hwrap. simpl in Hwrap.
    destruct Hwrap as [(-> & -> & ->) | (Hp & cs & Hcs & -> & ->)].
    + go. intros [= <- <-]. intros a. simpl. discriminate.
    + go. intros [= <- <-]. intros a. simpl. intros [= <-].
      rewrite lookup_insert_eq. eexists. split; [reflexivity|]. exact Hp.
  - intros w' Hok. pose proof Hok as Hinv.
    apply Free_Ok_inv in Hinv as (Hg & a & v & -> & Hv & Hm).
    rewrite (Free_run native w a v Hv Hg Hm) in Hok.
    injection Hok as <-. intros b. simpl.
    destruct (decide (Some a = currentVideoSurface w)) as [E|E];
      [discriminate|].
    intros Hb. destruct (Hlive b Hb) as (vb & Hvb & Hcb).
    rewrite lookup_insert_ne by congruence. eauto.
  - intros w' Hok. pose proof Hok as Hinv. unfold Quit in Hinv.
    apply GlobalMutex_Lock_bind_Ok in Hinv as [Hg _].
    assert (currentVideoSurface w' = None) as Hnone.
    { destruct (currentVideoSurface w) as [a|] eqn:Hc.
      - destruct (Hlive a Hc) as (v & Hv & _).
        rewrite (Quit_run native w a v Hg Hc Hv) in Hok.
        now injection Hok as <-.
      - rewrite (Quit_run_none native w Hg Hc) in Hok.
        now injection Hok as <-. }
    intros a. rewrite Hnone. discriminate.
  - intros r w' Hok. pose proof Hok as Hinv.
    apply Blit_Ok_inv
      in Hinv as (Hg & d0 & s0 & vd & vs & -> & -> & Hne & Hd & Hs & Hmd & Hms).
    rewrite (Blit_run native w d0 s0 vd vs rect rect' Hg Hne Hd Hs Hmd Hms)
      in Hok.
    injection Hok as _ <-. exact Hlive.
  - intros r w' Hok. pose proof Hok as Hinv.
    apply mutex_Lock_bind_Ok in Hinv as (a & v & -> & Hv & Hm).
    rewrite (FillRect_run native w a v rect color Hv Hm) in Hok.
    injection Hok as _ <-. exact Hlive.
Qed.

Lemma video_surface_stays_live_witness :
  video_surface_live
    (mkWorld (<[1%nat := destroyed sprite]> (heap onscreen_world)) stub_mem
       (Some 0%nat) false
       [GlobalLock; Lock_ 1; Call (SDL_FreeSurface 12288); Unlock_ 1;
        GlobalUnlock]).
Proof.
  destruct (video_surface_stays_live stub (Some 1%nat) None 0 0 0 0 0 0 0
              onscreen_world) as (_ & Hfree & _).
  - intros a [= <-]. exists screen. split; [reflexivity | discriminate].
  - apply Hfree. vm_compute. reflexivity.
Defined.

(** ** Factories hand out new handles *)

Lemma wrap_adds (c : Z) (w : World) (s : option nat) (w' : World) :
  wrap c w = Ok s w' ->
  adds_at_most_a_new_handle w w' s /\
  cmem w' = cmem w /\ GlobalMutex w' = GlobalMutex w /\ trace w' = trace w.
Proof.
  intros Hok. apply wrap_Ok_inv in Hok.
  destruct Hok as [(-> & -> & ->) | (Hc & cs & Hcs & -> & ->)].
  - repeat split.
  - simpl. repeat split. apply fresh_location_unused.
    exists c, cs. auto.
Qed.

Lemma Load_unfold (native : native_call -> CMem -> Z * CMem)
  (file : string) (w : World) :
  GlobalMutex w = false ->
  Load native file w
  = wrap (fst (native (IMG_Load file) (cmem w)))
      (mkWorld (heap w) (snd (native (IMG_Load file) (cmem w)))
         (currentVideoSurface w) false
         (trace w ++ [GlobalLock; Call (IMG_Load file); GlobalUnlock])).
Proof.
  intros Hg. destruct w as [hp cm cvs gm tr]; simpl in *; subst gm.
  unfold Load. go. destruct (native (IMG_Load file) cm) as [p m]. go.
  rewrite <- !app_assoc. reflexivity.
Qed.

Lemma CreateRGBSurface_unfold (native : native_call -> CMem -> Z * CMem)
  (flags width height bpp Rmask Gmask Bmask Amask : Z) (w : World) :
  GlobalMutex w = false ->
  let c := SDL_CreateRGBSurface (to_uint32 flags) (to_int32 width)
             (to_int32 height) (to_int32 bpp) (to_uint32 Rmask)
             (to_uint32 Gmask) (to_uint32 Bmask) (to_uint32 Amask) in
  CreateRGBSurface native flags width height bpp Rmask Gmask Bmask Amask w
  = wrap (fst (native c (cmem w)))
      (mkWorld (heap w) (snd (native c (cmem w))) (currentVideoSurface w)
         false (trace w ++ [GlobalLock; Call c; GlobalUnlock])).
Proof.
  intros Hg c. destruct w as [hp cm cvs gm tr]; simpl in *; subst gm.
  unfold CreateRGBSurface. go. fold c. destruct (native c cm) as [p m]. go.
  rewrite <- !app_assoc. reflexivity.
Qed.

Lemma DisplayFormat_unfold (native : native_call -> CMem -> Z * CMem)
  (a : nat) (v : Surface) (w : World) :
  heap w !! a = Some v ->
  writer (mutex v) = false ->
  let c := SDL_DisplayFormat (cSurface v) in
  DisplayFormat native (Some a) w
  = wrap (fst (native c (cmem w)))
      (mkWorld (heap w) (snd (native c (cmem w))) (currentVideoSurface w)
         (GlobalMutex w) (trace w ++ [RLock a; Call c; RUnlock a])).
Proof.
  intros Hv Hm c. destruct w as [hp cm cvs gm tr]; simpl in *.
  destruct v as [cs [wr rd] fl fo wd ht pi px off gc]; simpl in *; subst wr.
  unfold DisplayFormat. go. fold c. destruct (native c cm) as [p m]. go.
  rewrite !insert_insert_eq, <- !app_assoc, (insert_id hp a) by assumption.
  reflexivity.
Qed.

Lemma mutex_RLock_bind_Ok {B} (s : option nat) (f : unit -> M B)
  (w : World) (r : B) (w' : World) :
  (mutex_RLock s ≫= f) w = Ok r w' ->
  exists a v, s = Some a /\ heap w !! a = Some v /\ writer (mutex v) = false.
Proof.
  destruct w as [hp cm cvs gm tr]. destruct s as [a|]; [|go; discriminate].
  go. destruct (hp !! a) as [v|] eqn:Hv; [|go; discriminate].
  destruct v as [cs [wr rd] fl fo wd ht pi px off gc]. go.
  destruct wr; [discriminate|]. intros _. eauto.
Qed.

(** X9: a handle returned by [Load], [CreateRGBSurface] or [DisplayFormat]
    is never one already in use: it is nil, or a location that was not on
    the heap, now holding a surface with a non-null C pointer, a free mutex
    and the shadow of the C structure.  Every surface that was on the heap
    is unchanged, and so is the current video surface. *)
Theorem factories_return_new_handles
  (native : native_call -> CMem -> Z * CMem)
  (file : string) (flags width height bpp Rmask Gmask Bmask Amask : Z)
  (src : option nat) (w : World) (s : option nat) (w' : World) :
  (Load native file w = Ok s w' -> adds_at_most_a_new_handle w w' s) /\
  (CreateRGBSurface native flags width height bpp Rmask Gmask Bmask Amask w
   = Ok s w' -> adds_at_most_a_new_handle w w' s) /\
  (DisplayFormat native src w = Ok s w' -> adds_at_most_a_new_handle w w' s).
Proof.
  split; [|split].
  - intros Hok. pose proof Hok as Hinv. unfold Load in Hinv.
    apply GlobalMutex_Lock_bind_Ok in Hinv as [Hg _].
    rewrite (Load_unfold native file w Hg) in Hok.
    apply wrap_adds in Hok as [Hadd _]. exact Hadd.
  - intros Hok. pose proof Hok as Hinv. unfold CreateRGBSurface in Hinv.
    apply GlobalMutex_Lock_bind_Ok in Hinv as [Hg _].
    rewrite (CreateRGBSurface_unfold native _ _ _ _ _ _ _ _ w Hg) in Hok.
    apply wrap_adds in Hok as [Hadd _]. exact Hadd.
  - intros Hok. pose proof Hok as Hinv. unfold DisplayFormat in Hinv.
    apply mutex_RLock_bind_Ok in Hinv as (a & v & -> & Hv & Hm).
    rewrite (DisplayFormat_unfold native a v w Hv Hm) in Hok.
    apply wrap_adds in Hok as [Hadd _]. exact Hadd.
Qed.

Lemma factories_return_new_handles_witness :
  adds_at_most_a_new_handle offscreen_world
    (mkWorld (<[2%nat := wrapped 12288 sprite_c]> (heap offscreen_world))
       stub_mem None false
       [GlobalLock; Call (IMG_Load "ship.png"); GlobalUnlock])
    (Some 2%nat).
Proof.
  destruct (factories_return_new_handles loader_stub "ship.png"
              0 0 0 0 0 0 0 0 None offscreen_world (Some 2%nat)
              (mkWorld (<[2%nat := wrapped 12288 sprite_c]>
                          (heap offscreen_world))
                 stub_mem None false
                 [GlobalLock; Call (IMG_Load "ship.png"); GlobalUnlock]))
    as (Hload & _).
  apply Hload. vm_compute. reflexivity.
Defined.

(** ** The caller's pixels are retained until [Free] *)

Lemma CreateRGBSurfaceFrom_run_exact
  (native : native_call -> CMem -> Z * CMem)
  (pixels : option GoValue)
  (width height bpp pitch Rmask Gmask Bmask Amask : Z) (w : World)
  (cs : SDL_Surface.t) :
  GlobalMutex w = false ->
  (Kind_of pixels = Ptr \/ Kind_of pixels = UnsafePointer \/
   Kind_of pixels = Slice) ->
  let c := SDL_CreateRGBSurfaceFrom (from_option Pointer NULL pixels)
             (to_int32 width) (to_int32 height) (to_int32 bpp)
             (to_int32 pitch) (to_uint32 Rmask) (to_uint32 Gmask)
             (to_uint32 Bmask) (to_uint32 Amask) in
  let p := fst (native c (cmem w)) in
  let a := fresh (dom (heap w)) in
  p <> NULL ->
  surfaces (snd (native c (cmem w))) !! p = Some cs ->
  CreateRGBSurfaceFrom native pixels width height bpp pitch
    Rmask Gmask Bmask Amask w
  = Ok (Some a)
      (mkWorld
         (<[a := mkSurface p (mkRWMutex false 0)
                   (to_uint32 (SDL_Surface.flags cs))
                   (SDL_Surface.format cs)
                   (to_int32 (SDL_Surface.w cs))
                   (to_int32 (SDL_Surface.h cs))
                   (to_uint16 (SDL_Surface.pitch cs))
                   (SDL_Surface.pixels cs)
                   (to_int32 (SDL_Surface.offset cs)) pixels]> (heap w))
         (snd (native c (cmem w))) (currentVideoSurface w) false
         (trace w ++ [GlobalLock; Call c; GlobalUnlock])).
Proof.
  intros Hg Hk c p a Hp Hcs.
  destruct w as [hp cm cvs gm tr]; simpl in *; subst gm.
  unfold CreateRGBSurfaceFrom.
  rewrite (pixels_pointer_accepted pixels Hk). go. fold c. subst p.
  destruct (native c cm) as [p m]. simpl in *.
  unfold wrap, SetCSurface, reload.
  destruct (Z.eqb_spec p NULL) as [|_]; [contradiction|].
  go. destruct (Z.eqb_spec p NULL) as [|_]; [contradiction|].
  go. rewrite !insert_insert_eq, <- !app_assoc. reflexivity.
Qed.

(** X10: a surface made by [CreateRGBSurfaceFrom] passes the data address
    of the caller's pixels to C and keeps the pixels value in [gcPixels];
    [FillRect] leaves it there; [Free] hands the C surface to
    [SDL_FreeSurface] and only then is the reference gone, together with the
    C pointer. *)
Theorem pixels_retained_until_Free
  (native : native_call -> CMem -> Z * CMem)
  (pixels : option GoValue)
  (width height bpp pitch Rmask Gmask Bmask Amask rect color : Z)
  (w : World) (cs : SDL_Surface.t) :
  GlobalMutex w = false ->
  (Kind_of pixels = Ptr \/ Kind_of pixels = UnsafePointer \/
   Kind_of pixels = Slice) ->
  let c := SDL_CreateRGBSurfaceFrom (from_option Pointer NULL pixels)
             (to_int32 width) (to_int32 height) (to_int32 bpp)
             (to_int32 pitch) (to_uint32 Rmask) (to_uint32 Gmask)
             (to_uint32 Bmask) (to_uint32 Amask) in
  let p := fst (native c (cmem w)) in
  p <> NULL ->
  surfaces (snd (native c (cmem w))) !! p = Some cs ->
  exists a v1 w1 r w2 v3 w3,
    CreateRGBSurfaceFrom native pixels width height bpp pitch
      Rmask Gmask Bmask Amask w = Ok (Some a) w1 /\
    heap w1 !! a = Some v1 /\ cSurface v1 = p /\ gcPixels v1 = pixels /\
    FillRect native (Some a) rect color w1 = Ok r w2 /\
    heap w2 !! a = Some v1 /\
    Free native (Some a) w2 = Ok tt w3 /\
    heap w3 !! a = Some v3 /\ cSurface v3 = NULL /\ gcPixels v3 = None /\
    calls (trace w3)
    = calls (trace w) ++
      [c; SDL_FillRect p rect (to_uint32 color); SDL_FreeSurface p].
Proof.
  intros Hg Hk c p Hp Hcs.
  pose proof (CreateRGBSurfaceFrom_run_exact native pixels width height bpp
                pitch Rmask Gmask Bmask Amask w cs Hg Hk Hp Hcs) as Hcreate.
  fold c p in Hcreate. cbv zeta in Hcreate.
  set (a := fresh (dom (heap w))) in *.
  set (v1 := mkSurface p (mkRWMutex false 0)
               (to_uint32 (SDL_Surface.flags cs)) (SDL_Surface.format cs)
               (to_int32 (SDL_Surface.w cs)) (to_int32 (SDL_Surface.h cs))
               (to_uint16 (SDL_Surface.pitch cs)) (SDL_Surface.pixels cs)
               (to_int32 (SDL_Surface.offset cs)) pixels) in *.
  set (w1 := mkWorld (<[a := v1]> (heap w)) (snd (native c (cmem w)))
               (currentVideoSurface w) false
               (trace w ++ [GlobalLock; Call c; GlobalUnlock])) in *.
  assert (Hv1 : heap w1 !! a = Some v1) by apply lookup_insert_eq.
  pose proof (FillRect_run native w1 a v1 rect color Hv1 eq_refl) as Hfill.
  cbv zeta in Hfill.
  set (w2 := mkWorld (heap w1) _ _ _ _) in Hfill.
  pose proof (Free_run native w2 a v1 Hv1 eq_refl eq_refl) as Hfree.
  exists a, v1, w1. do 4 eexists.
  split; [exact Hcreate|]. split; [exact Hv1|].
  split; [reflexivity|]. split; [reflexivity|].
  split; [exact Hfill|]. split; [exact Hv1|].
  split; [exact Hfree|]. simpl.
  split; [apply lookup_insert_eq|]. split; [reflexivity|].
  split; [reflexivity|].
  rewrite !calls_app. simpl. rewrite <- !app_assoc. reflexivity.
Qed.

Lemma pixels_retained_until_Free_witness :
  exists a v1 w1 r w2 v3 w3,
    CreateRGBSurfaceFrom stub (Some (mkGoValue Slice 16384)) 32 32 32 128
      0 0 0 0 empty_world = Ok (Some a) w1 /\
    heap w1 !! a = Some v1 /\ cSurface v1 = 12288 /\
    gcPixels v1 = Some (mkGoValue Slice 16384) /\
    FillRect stub (Some a) 0 255 w1 = Ok r w2 /\
    heap w2 !! a = Some v1 /\
    Free stub (Some a) w2 = Ok tt w3 /\
    heap w3 !! a = Some v3 /\ cSurface v3 = NULL /\ gcPixels v3 = None /\
    calls (trace w3)
    = calls (trace empty_world) ++
      [SDL_CreateRGBSurfaceFrom 16384 32 32 32 128 0 0 0 0;
       SDL_FillRect 12288 0 (to_uint32 255); SDL_FreeSurface 12288].
Proof.
  apply (pixels_retained_until_Free stub (Some (mkGoValue Slice 16384))
           32 32 32 128 0 0 0 0 0 255 empty_world
           (SDL_Surface.mk 0 64 32 32 128 16384 0)).
  - reflexivity.
  - right; right; reflexivity.
  - discriminate.
  - reflexivity.
Defined.

(** ** [ExpandByte] *)

Lemma ExpandByte_checked :
  forallb (fun loss =>
             forallb (ExpandByte_entry_ok loss)
               (seq 0 (Z.to_nat (2 ^ (8 - Z.of_nat loss)))))
    (seq 0 9) = true.
Proof. vm_compute. reflexivity. Qed.

Lemma ExpandByte_sizes :
  map length ExpandByte = map (fun loss => Nat.pow 2 (8 - loss)) (seq 0 9).
Proof. vm_compute. reflexivity. Qed.

(** X11: [ExpandByte[loss]] has exactly 2^(8-loss) entries, for the nine
    losses 0 to 8 and no other.  The entry for a channel value [v] is [v]
    scaled from 0..2^(8-loss)-1 to 0..255, rounded down (255 for the single
    entry of loss 8); it fits 8 bits, and shifting it right by [loss] gives
    [v] back. *)
Theorem ExpandByte_scales_and_inverts (loss v : nat) :
  (ExpandByte_at loss v = None <->
   (8 < loss)%nat \/ 2 ^ (8 - Z.of_nat loss) <= Z.of_nat v) /\
  forall x,
    ExpandByte_at loss v = Some x ->
    0 <= x <= 255 /\
    (loss <> 8%nat -> x = Z.of_nat v * 255 / (2 ^ (8 - Z.of_nat loss) - 1)) /\
    (loss = 8%nat -> x = 255) /\
    Z.shiftr x (Z.of_nat loss) = Z.of_nat v.
Proof.
  assert (Hsize : forall row, ExpandByte !! loss = Some row ->
                    (loss <= 8)%nat /\
                    Z.of_nat (length row) = 2 ^ (8 - Z.of_nat loss)).
  { intros row Hrow.
    assert (Hlt : (loss < 9)%nat)
      by (apply lookup_lt_Some in Hrow; exact Hrow).
    split; [lia|].
    pose proof ExpandByte_sizes as Hs.
    assert (map length ExpandByte !! loss = Some (length row)) as Hl
      by (rewrite list_lookup_fmap, Hrow; reflexivity).
    rewrite Hs, list_lookup_fmap, lookup_seq_lt in Hl by lia.
    simpl in Hl. injection Hl as Hl. rewrite <- Hl.
    rewrite Nat2Z.inj_pow, Nat2Z.inj_sub by lia. reflexivity. }
  assert (Hin : forall x, ExpandByte_at loss v = Some x ->
                  ExpandByte_entry_ok loss v = true).
  { intros x Hx. unfold ExpandByte_at in Hx.
    destruct (ExpandByte !! loss) as [row|] eqn:Hrow; [|discriminate].
    simpl in Hx. destruct (Hsize row eq_refl) as [Hl Hlen].
    pose proof (lookup_lt_Some _ _ _ Hx) as Hv.
    pose proof ExpandByte_checked as Hall.
    rewrite forallb_forall in Hall.
    specialize (Hall loss). rewrite in_seq in Hall.
    specialize (Hall ltac:(lia)). rewrite forallb_forall in Hall.
    apply Hall. rewrite in_seq. lia. }
  split.
  - unfold ExpandByte_at.
    destruct (ExpandByte !! loss) as [row|] eqn:Hrow; simpl.
    + destruct (Hsize row eq_refl) as [Hl Hlen].
      rewrite lookup_ge_None. split; [intros; right|intros [|]]; lia.
    + apply lookup_ge_None in Hrow.
      change (length ExpandByte) with 9%nat in Hrow.
      split; [intros _; left; lia | reflexivity].
  - intros x Hx. pose proof (Hin x Hx) as Hok.
    unfold ExpandByte_entry_ok in Hok. rewrite Hx in Hok.
    rewrite !andb_true_iff in Hok.
    destruct Hok as [[[H0 H255] Hscale] Hshift].
    apply Z.leb_le in H0, H255. apply Z.eqb_eq in Hshift.
    split; [lia|]. split; [|split; [|exact Hshift]].
    + intros Hne. destruct (Nat.eqb_spec loss 8) as [|_]; [contradiction|].
      now apply Z.eqb_eq in Hscale.
    + intros ->. simpl in Hscale. now apply Z.eqb_eq in Hscale.
Qed.

Lemma ExpandByte_scales_and_inverts_witness :
  ExpandByte_at 2 21 = Some 85 /\
  0 <= 85 <= 255 /\
  85 = 21 * 255 / (2 ^ (8 - 2) - 1) /\
  Z.shiftr 85 2 = 21.
Proof.
  destruct (ExpandByte_scales_and_inverts 2 21) as [_ Hentry].
  destruct (Hentry 85) as (Hrange & Hscale & _ & Hshift); [reflexivity|].
  split; [reflexivity|]. split; [exact Hrange|].
  split; [apply Hscale; discriminate | exact Hshift].
Defined.

(** ** [Pixel32] *)

Lemma half_word_ge (ptr_size : Z) :
  4 <= ptr_size -> 2 ^ 31 <= 2 ^ (word_bits ptr_size - 1).
Proof. intros Hps. unfold word_bits. apply Z.pow_le_mono_r; lia. Qed.

Lemma Pixel32_run (ptr_size : Z) (w : World) (a : nat) (v : Surface) :
  4 <= ptr_size ->
  heap w !! a = Some v ->
  is_uint16 (Pitch v) ->
  0 <= H v < 2 ^ 31 ->
  Pitch v * H v < 2 ^ (word_bits ptr_size - 1) ->
  0 <= Pixels v < 2 ^ word_bits ptr_size ->
  Pixel32 ptr_size (Some a) w
  = Ok (mkSliceHeader (Pixels v) (Pitch v * H v / 4) (Pitch v * H v / 4)) w.
Proof.
  intros Hps Hv Hp Hh Hprod Hpx. unfold is_uint16 in Hp.
  pose proof (half_word_ge ptr_size Hps) as Hhalf.
  unfold Pixel32, mbind, M_bind, load. rewrite Hv. unfold mret, M_ret.
  change (2 ^ 16) with 65536 in Hp.
  change (2 ^ 31) with 2147483648 in Hh, Hhalf.
  rewrite (to_int_small ptr_size ltac:(lia) (Pitch v)) by lia.
  rewrite (to_int_small ptr_size ltac:(lia) (H v)) by lia.
  rewrite (to_int_small ptr_size ltac:(lia) (Pitch v * H v)) by nia.
  unfold to_uintptr. rewrite (Z.mod_small (Pixels v)) by lia.
  rewrite Z.quot_div_nonneg by nia. reflexivity.
Qed.

(** X12: on a live surface [Pixel32] takes no lock and makes no C call; the
    slice it returns starts at [Pixels], has equal length and capacity, and
    covers only whole 32-bit words inside the [Pitch * H] bytes of the
    pixel buffer: up to three trailing bytes are left out, none is added. *)
Theorem Pixel32_within_buffer
  (ptr_size : Z) (w : World) (a : nat) (v : Surface) :
  4 <= ptr_size ->
  heap w !! a = Some v ->
  is_uint16 (Pitch v) ->
  0 <= H v < 2 ^ 31 ->
  Pitch v * H v < 2 ^ (word_bits ptr_size - 1) ->
  0 <= Pixels v < 2 ^ word_bits ptr_size ->
  exists hdr,
    Pixel32 ptr_size (Some a) w = Ok hdr w /\
    Data hdr = Pixels v /\
    Cap hdr = Len hdr /\
    0 <= Len hdr /\
    4 * Len hdr <= Pitch v * H v < 4 * Len hdr + 4.
Proof.
  intros Hps Hv Hp Hh Hprod Hpx. eexists.
  split; [apply (Pixel32_run ptr_size w a v); assumption|].
  simpl. unfold is_uint16 in Hp.
  assert (Hnn : 0 <= Pitch v * H v) by nia.
  pose proof (Z.div_mod (Pitch v * H v) 4 ltac:(lia)) as Hdm.
  pose proof (Z.mod_pos_bound (Pitch v * H v) 4 ltac:(lia)) as Hmod.
  pose proof (Z.div_pos (Pitch v * H v) 4 Hnn ltac:(lia)) as Hdiv.
  repeat split; lia.
Qed.

Lemma Pixel32_within_buffer_witness :
  exists hdr,
    Pixel32 8 (Some 0%nat) onscreen_world = Ok hdr onscreen_world /\
    Data hdr = 8192 /\
    Cap hdr = Len hdr /\
    0 <= Len hdr /\
    4 * Len hdr <= 2560 * 480 < 4 * Len hdr + 4.
Proof.
  apply (Pixel32_within_buffer 8 onscreen_world 0 screen).
  - lia.
  - reflexivity.
  - unfold is_uint16. simpl. lia.
  - simpl. lia.
  - vm_compute. reflexivity.
  - vm_compute. split; [discriminate | reflexivity].
Defined.

(** X13: after [Free], [Pixel32] still returns a slice of the old length,
    [Pitch * H / 4] words, but over the NULL address: [Free] has cleared
    [Pixels] and kept [Pitch] and [H]. *)
Theorem Pixel32_after_Free
  (native : native_call -> CMem -> Z * CMem)
  (ptr_size : Z) (w : World) (a : nat) (v : Surface) :
  4 <= ptr_size ->
  GlobalMutex w = false ->
  heap w !! a = Some v ->
  mutex v = mkRWMutex false 0 ->
  is_uint16 (Pitch v) ->
  0 <= H v < 2 ^ 31 ->
  Pitch v * H v < 2 ^ (word_bits ptr_size - 1) ->
  exists w1,
    Free native (Some a) w = Ok tt w1 /\
    Pixel32 ptr_size (Some a) w1
    = Ok (mkSliceHeader NULL (Pitch v * H v / 4) (Pitch v * H v / 4)) w1.
Proof.
  intros Hps Hg Hv Hm Hp Hh Hprod. eexists.
  split; [apply (Free_run native w a v Hv Hg Hm)|].
  apply (Pixel32_run ptr_size _ a (destroyed v)); try assumption.
  - simpl. apply lookup_insert_eq.
  - simpl. unfold NULL. split; [lia|].
    apply Z.pow_pos_nonneg; unfold word_bits; lia.
Qed.

Lemma Pixel32_after_Free_witness :
  exists w1,
    Free stub (Some 0%nat) onscreen_world = Ok tt w1 /\
    Pixel32 8 (Some 0%nat) w1
    = Ok (mkSliceHeader NULL (2560 * 480 / 4) (2560 * 480 / 4)) w1.
Proof.
  apply (Pixel32_after_Free stub 8 onscreen_world 0 screen).
  - lia.
  - reflexivity.
  - reflexivity.
  - reflexivity.
  - unfold is_uint16. simpl. lia.
  - simpl. lia.
  - vm_compute. reflexivity.
Defined.

(** ** [Init] and [InitSubSystem]: the video driver fallback *)

Ltac go' := unfold foreign in *; go.





(** ** [poll] *)




(** ** [Flip], [UpdateRect] and [UpdateRects] *)

Lemma Flip_run (SDL_Flip : Z -> CMem -> Z * CMem)
  (w : World) (a : nat) (v : Surface) :
  GlobalMutex w = false ->
  heap w !! a = Some v ->
  mutex v = mkRWMutex false 0 ->
  Flip SDL_Flip (Some a) w
  = Ok (fst (SDL_Flip (cSurface v) (cmem w)))
      (mkWorld (heap w) (snd (SDL_Flip (cSurface v) (cmem w)))
         (currentVideoSurface w) false
         (trace w ++ [GlobalLock; Lock_ a; Unlock_ a; GlobalUnlock])).
Proof.
  intros Hg Hv Hm. destruct w as [hp cm cvs gm tr]; simpl in *; subst gm.
  destruct v as [cs mu fl fo wd ht pi px off gc]; simpl in *; subst mu.
  unfold Flip. go'. destruct (SDL_Flip cs cm) as [r m]. go'.
  rewrite !insert_insert_eq, <- !app_assoc, (insert_id hp a) by assumption.
  reflexivity.
Qed.

Lemma UpdateRect_run
  (SDL_UpdateRect : Z -> Z -> Z -> Z -> Z -> CMem -> unit * CMem)
  (w : World) (a : nat) (v : Surface) (x y wd ht : Z) :
  GlobalMutex w = false ->
  heap w !! a = Some v ->
  mutex v = mkRWMutex false 0 ->
  UpdateRect SDL_UpdateRect (Some a) x y wd ht w
  = Ok tt
      (mkWorld (heap w)
         (snd (SDL_UpdateRect (cSurface v) (to_int32 x) (to_int32 y)
                 (to_uint32 wd) (to_uint32 ht) (cmem w)))
         (currentVideoSurface w) false
         (trace w ++ [GlobalLock; Lock_ a; Unlock_ a; GlobalUnlock])).
Proof.
  intros Hg Hv Hm. destruct w as [hp cm cvs gm tr]; simpl in *; subst gm.
  destruct v as [cs mu fl fo wd' ht' pi px off gc]; simpl in *; subst mu.
  unfold UpdateRect. go'. destruct (SDL_UpdateRect _ _ _ _ _ cm) as [r m].
  go'.
  rewrite !insert_insert_eq, <- !app_assoc, (insert_id hp a) by assumption.
  reflexivity.
Qed.

Lemma UpdateRects_run
  (SDL_UpdateRects : Z -> Z -> list Rect.t -> CMem -> unit * CMem)
  (w : World) (a : nat) (v : Surface) (r : Rect.t) (rs : list Rect.t) :
  GlobalMutex w = false ->
  heap w !! a = Some v ->
  mutex v = mkRWMutex false 0 ->
  UpdateRects SDL_UpdateRects (Some a) (make_slice (r :: rs)) w
  = Ok tt
      (mkWorld (heap w)
         (snd (SDL_UpdateRects (cSurface v)
                 (to_int32 (Z.of_nat (length (r :: rs)))) (r :: rs)
                 (cmem w)))
         (currentVideoSurface w) false
         (trace w ++ [GlobalLock; Lock_ a; Unlock_ a; GlobalUnlock])).
Proof.
  intros Hg Hv Hm. destruct w as [hp cm cvs gm tr]; simpl in *; subst gm.
  destruct v as [cs mu fl fo wd' ht' pi px off gc]; simpl in *; subst mu.
  unfold UpdateRects. go'.
  destruct (SDL_UpdateRects _ _ _ cm) as [u m]. go'.
  rewrite !insert_insert_eq, <- !app_assoc, (insert_id hp a) by assumption.
  reflexivity.
Qed.



(** ** Lock order *)

Lemma global_then_surface_Ok_inv {B} (s : option nat) (f : unit -> M B)
  (w : World) (r : B) (w' : World) :
  (GlobalMutex_Lock;; mutex_Lock s ≫= f) w = Ok r w' ->
  GlobalMutex w = false /\
  exists a v,
    s = Some a /\ heap w !! a = Some v /\ mutex v = mkRWMutex false 0.
Proof.
  intros Hok. apply GlobalMutex_Lock_bind_Ok in Hok as [Hg Hok].
  split; [exact Hg|]. apply mutex_Lock_bind_Ok in Hok. exact Hok.
Qed.

(** X17: in every call of [Blit], [Free], [Flip], [UpdateRect] or
    [UpdateRects] that returns, the global mutex is requested before any
    surface mutex is taken, never while one is held. *)
Theorem global_mutex_is_requested_first
  (native : native_call -> CMem -> Z * CMem)
  (SDL_Flip : Z -> CMem -> Z * CMem)
  (SDL_UpdateRect : Z -> Z -> Z -> Z -> Z -> CMem -> unit * CMem)
  (SDL_UpdateRects : Z -> Z -> list Rect.t -> CMem -> unit * CMem)
  (s d : option nat) (rect rect' x y wd ht : Z) (rects : slice Rect.t)
  (w : World) :
  (forall r w',
      Blit native d rect s rect' w = Ok r w' -> lock_ordered w w') /\
  (forall w', Free native s w = Ok tt w' -> lock_ordered w w') /\
  (forall r w', Flip SDL_Flip s w = Ok r w' -> lock_ordered w w') /\
  (forall w',
      UpdateRect SDL_UpdateRect s x y wd ht w = Ok tt w' ->
      lock_ordered w w') /\
  (forall w',
      UpdateRects SDL_UpdateRects s rects w = Ok tt w' ->
      lock_ordered w w').
Proof.
  split; [|split; [|split; [|split]]].
  - intros r w' Hok. pose proof Hok as Hinv.
    apply Blit_Ok_inv
      in Hinv as (Hg & d0 & s0 & vd & vs & -> & -> & Hne & Hd & Hs & Hmd & Hms).
    rewrite (Blit_run native w d0 s0 vd vs rect rect' Hg Hne Hd Hs Hmd Hms)
      in Hok.
    injection Hok as _ <-. eexists. split; [reflexivity|].
    destruct (negb _); reflexivity.
  - intros w' Hok. pose proof Hok as Hinv.
    apply Free_Ok_inv in Hinv as (Hg & a & v & -> & Hv & Hm).
    rewrite (Free_run native w a v Hv Hg Hm) in Hok.
    injection Hok as <-. eexists. split; reflexivity.
  - intros r w' Hok. pose proof Hok as Hinv. unfold Flip in Hinv.
    apply global_then_surface_Ok_inv in Hinv as (Hg & a & v & -> & Hv & Hm).
    rewrite (Flip_run SDL_Flip w a v Hg Hv Hm) in Hok.
    injection Hok as _ <-. eexists. split; reflexivity.
  - intros w' Hok. pose proof Hok as Hinv. unfold UpdateRect in Hinv.
    apply global_then_surface_Ok_inv in Hinv as (Hg & a & v & -> & Hv & Hm).
    rewrite (UpdateRect_run SDL_UpdateRect w a v x y wd ht Hg Hv Hm) in Hok.
    injection Hok as <-. eexists. split; reflexivity.
  - intros w' Hok. destruct rects as [|[|r rs]].
    + injection Hok as <-. exists []. split; [now rewrite app_nil_r|].
      reflexivity.
    + injection Hok as <-. exists []. split; [now rewrite app_nil_r|].
      reflexivity.
    + pose proof Hok as Hinv. unfold UpdateRects in Hinv. simpl in Hinv.
      apply global_then_surface_Ok_inv in Hinv as (Hg & a & v & -> & Hv & Hm).
      rewrite (UpdateRects_run SDL_UpdateRects w a v r rs Hg Hv Hm) in Hok.
      injection Hok as <-. eexists. split; reflexivity.
Qed.

Lemma global_mutex_is_requested_first_witness :
  lock_ordered onscreen_world
    (mkWorld (heap onscreen_world) stub_mem (Some 0%nat) false
       [GlobalLock; RLock 0; Lock_ 1; Call (SDL_UpperBlit 4096 0 12288 0);
        Unlock_ 1; RUnlock 0; GlobalUnlock]).
Proof.
  destruct (global_mutex_is_requested_first stub
              (fun _ m => (0, m)) (fun _ _ _ _ _ m => (tt, m))
              (fun _ _ _ m => (tt, m))
              (Some 0%nat) (Some 1%nat) 0 0 0 0 0 0 nil_slice
              onscreen_world) as (Hblit & _).
  apply (Hblit 0). vm_compute. reflexivity.
Defined.

(** ** [SetCSurface] *)

(** X18: [SetCSurface] stores the new C pointer and loads the shadow from
    the structure it points to, keeping the mutex state and the retained
    pixels; it takes no lock, whatever the state of the surface's mutex.
    Given NULL it panics in [reload] after the pointer has been stored: the
    handle is left with a NULL pointer and its old shadow. *)
Theorem SetCSurface_stores_then_reloads
  (w : World) (a : nat) (v : Surface) (c : Z) (cs : SDL_Surface.t) :
  heap w !! a = Some v ->
  (c <> NULL ->
   surfaces (cmem w) !! c = Some cs ->
   SetCSurface (Some a) c w
   = Ok tt
       (mkWorld
          (<[a := mkSurface c (mutex v)
                    (to_uint32 (SDL_Surface.flags cs))
                    (SDL_Surface.format cs)
                    (to_int32 (SDL_Surface.w cs))
                    (to_int32 (SDL_Surface.h cs))
                    (to_uint16 (SDL_Surface.pitch cs))
                    (SDL_Surface.pixels cs)
                    (to_int32 (SDL_Surface.offset cs))
                    (gcPixels v)]> (heap w))
          (cmem w) (currentVideoSurface w) (GlobalMutex w) (trace w))) /\
  SetCSurface (Some a) NULL w
  = Panic nil_dereference
      (mkWorld
         (<[a := mkSurface NULL (mutex v) (Flags v) (Format v) (W v) (H v)
                   (Pitch v) (Pixels v) (Offset v) (gcPixels v)]> (heap w))
         (cmem w) (currentVideoSurface w) (GlobalMutex w) (trace w)).
Proof.
  intros Hv. destruct w as [hp cm cvs gm tr]; simpl in *. split.
  - intros Hc Hcs. unfold SetCSurface, reload. go.
    destruct (Z.eqb_spec c NULL) as [|_]; [contradiction|].
    go. rewrite insert_insert_eq. reflexivity.
  - unfold SetCSurface, reload. go. reflexivity.
Qed.

Lemma SetCSurface_stores_then_reloads_witness :
  (12288 <> NULL ->
   surfaces (cmem onscreen_world) !! 12288 = Some sprite_c ->
   SetCSurface (Some 0%nat) 12288 onscreen_world
   = Ok tt
       (mkWorld
          (<[0%nat := mkSurface 12288 unlocked 0 64 32 32 128 16384 0 None]>
             (heap onscreen_world))
          stub_mem (Some 0%nat) false [])) /\
  SetCSurface (Some 0%nat) NULL onscreen_world
  = Panic nil_dereference
      (mkWorld
         (<[0%nat := mkSurface NULL unlocked 1 64 640 480 2560 8192 0 None]>
            (heap onscreen_world))
         stub_mem (Some 0%nat) false []).
Proof.
  apply (SetCSurface_stores_then_reloads onscreen_world 0 screen 12288
           sprite_c).
  reflexivity.
Defined.

(** ** [poll] once the video surface is gone *)

Lemma poll_run_none
  (VIDEORESIZE : Z) (Event : Type) (Event_Type : Event -> Z)
  (SDL_PollEvent : Event -> CMem -> (Z * Event) * CMem)
  (event : Event) (w : World) :
  GlobalMutex w = false ->
  currentVideoSurface w = None ->
  poll VIDEORESIZE Event Event_Type SDL_PollEvent event w
  = Ok (bool_decide (fst (fst (SDL_PollEvent event (cmem w))) <> 0),
        snd (fst (SDL_PollEvent event (cmem w))))
      (mkWorld (heap w) (snd (SDL_PollEvent event (cmem w))) None false
         (trace w ++ [GlobalLock; GlobalUnlock])).
Proof.
  intros Hg Hc. destruct w as [hp cm cvs gm tr]; simpl in *; subst gm cvs.
  unfold poll. go'.
  destruct (SDL_PollEvent event cm) as [[r e] m]. simpl.
  destruct (bool_decide (r <> 0)); go';
    [destruct (bool_decide (Event_Type e = VIDEORESIZE)); go'|];
    rewrite <- !app_assoc; reflexivity.
Qed.

(** X19: once the video surface has been freed, [poll] leaves its handle
    alone whatever event arrives, a resize included, because [Free] has
    cleared the current video surface; [reload] on the freed handle itself
    would panic on its NULL pointer. *)
Theorem poll_after_Free_skips_reload
  (native : native_call -> CMem -> Z * CMem)
  (VIDEORESIZE : Z) (Event : Type) (Event_Type : Event -> Z)
  (SDL_PollEvent : Event -> CMem -> (Z * Event) * CMem)
  (event : Event) (w : World) (a : nat) (v : Surface) :
  GlobalMutex w = false ->
  currentVideoSurface w = Some a ->
  heap w !! a = Some v ->
  mutex v = mkRWMutex false 0 ->
  exists w1 r w2,
    Free native (Some a) w = Ok tt w1 /\
    poll VIDEORESIZE Event Event_Type SDL_PollEvent event w1 = Ok r w2 /\
    heap w2 = heap w1 /\
    heap w2 !! a = Some (destroyed v) /\
    currentVideoSurface w2 = None /\
    reload (Some a) w1 = Panic nil_dereference w1.
Proof.
  intros Hg Hc Hv Hm. do 3 eexists.
  split; [apply (Free_run native w a v Hv Hg Hm)|].
  split.
  { apply poll_run_none; [reflexivity|]. simpl.
    rewrite Hc. destruct (decide (Some a = Some a)); [reflexivity|].
    contradiction. }
  simpl. split; [reflexivity|]. split; [apply lookup_insert_eq|].
  split; [reflexivity|].
  unfold reload. go. reflexivity.
Qed.

Lemma poll_after_Free_skips_reload_witness :
  exists w1 r w2,
    Free stub (Some 0%nat) onscreen_world = Ok tt w1 /\
    poll 16 Z (fun e => e) resize_PollEvent 0 w1 = Ok r w2 /\
    heap w2 = heap w1 /\
    heap w2 !! 0%nat = Some (destroyed screen) /\
    currentVideoSurface w2 = None /\
    reload (Some 0%nat) w1 = Panic nil_dereference w1.
Proof.
  apply (poll_after_Free_skips_reload stub 16 Z (fun e => e)
           resize_PollEvent 0 onscreen_world 0 screen); reflexivity.
Defined.
